(** * apex-doc-parser: a shallow embedding of the text-to-tree extractors

    The repository turns the flat text of the Apex Reference Guide into a tree
    of namespaces, classes, methods and DML statements.  Everything is done
    with Python's [re] module and a few [str] methods, so the embedding has
    three layers:

    - [Py]: Python strings as lists of characters, with [strip], [find],
      [split] and slices;
    - [Re]: the fragment of Python's regular expressions the sources use,
      as a syntax tree and a backtracking matcher ([search], [finditer],
      [sub], [split], [match_]);
    - one module per source file ([Patterns] for patterns.py, [ApexParser]
      for apex_parser.py, [SimpleChunker] for simpleChunker.py, [Processor]
      for processor.py) whose definitions follow the source line by line.

    Characters are the code points 0..255 (Rocq's [ascii]); they are
    classified the way Python classifies those code points. *)

From Stdlib Require Import Ascii String DecimalString DecimalNat.
From Stdlib Require Import List Bool Arith PeanoNat NArith Lia.
Import ListNotations.
Open Scope list_scope.

Set Implicit Arguments.

(* ================================================================== *)
(** ** Python strings *)
(* ================================================================== *)

Module Py.

(** A Python [str]: a sequence of code points. *)
Definition str := list ascii.

Definition nl : ascii := "010"%char.
Definition backslash : ascii := "092"%char.

(** [lit] reads a literal the way Python reads a plain string literal:
    [\n], [\t] and [\\] are escapes, every other character stands for
    itself. *)
Fixpoint lit (s : string) : str :=
  match s with
  | EmptyString => []
  | String c s' =>
      if Ascii.eqb c backslash then
        match s' with
        | String "n"%char s'' => nl :: lit s''
        | String "t"%char s'' => "009"%char :: lit s''
        | String "092"%char s'' => backslash :: lit s''
        | _ => c :: lit s'
        end
      else c :: lit s'
  end.

Arguments lit s%_string.

Definition code (c : ascii) : nat := nat_of_ascii c.

Definition between (lo hi : nat) (c : ascii) : bool :=
  (lo <=? code c) && (code c <=? hi).

(** [str.isspace] on one character, which is also what [\s] matches:
    code points 9-13, 28-32, 133 and 160. *)
Definition is_space (c : ascii) : bool :=
  between 9 13 c || between 28 32 c || (code c =? 133) || (code c =? 160).

(** [\d]: the decimal digits (below 256 only 0-9). *)
Definition is_digit (c : ascii) : bool := between 48 57 c.

(** [[A-Z]] and [[a-zA-Z]]. *)
Definition is_upper (c : ascii) : bool := between 65 90 c.
Definition is_alpha (c : ascii) : bool := between 65 90 c || between 97 122 c.

(** [\w]: alphanumeric code points and the underscore. *)
Definition is_word (c : ascii) : bool :=
  is_alpha c || is_digit c || (code c =? 95)
  || (code c =? 170) || (code c =? 178) || (code c =? 179) || (code c =? 181)
  || (code c =? 185) || (code c =? 186) || between 188 190 c
  || between 192 214 c || between 216 246 c || between 248 255 c.

Definition one_of (cs : string) (c : ascii) : bool :=
  existsb (Ascii.eqb c) (list_ascii_of_string cs).
Arguments one_of cs%_string c.

(** [t[a:b]] for non-negative indices. *)
Definition slice (t : str) (a b : nat) : str := firstn (b - a) (skipn a t).

(** [t[a:]]. *)
Definition slice_from (t : str) (a : nat) : str := skipn a t.

Fixpoint lstrip (t : str) : str :=
  match t with
  | c :: t' => if is_space c then lstrip t' else t
  | [] => []
  end.

Definition rstrip (t : str) : str := rev (lstrip (rev t)).

(** [t.strip()]. *)
Definition strip (t : str) : str := rstrip (lstrip t).

Fixpoint starts_with (p t : str) : bool :=
  match p, t with
  | [], _ => true
  | a :: p', b :: t' => Ascii.eqb a b && starts_with p' t'
  | _ :: _, [] => false
  end.

(** Index of the first occurrence of [p] in [t], counted from [i]. *)
Fixpoint find_at (p t : str) (i : nat) : option nat :=
  if starts_with p t then Some i
  else match t with
       | [] => None
       | _ :: t' => find_at p t' (S i)
       end.

(** [t.find(p, start)]: [None] stands for Python's -1. *)
Definition find (t p : str) (start : nat) : option nat :=
  if start <=? length t then find_at p (skipn start t) start else None.

(** [p in t]. *)
Definition contains (p t : str) : bool :=
  match find_at p t 0 with Some _ => true | None => false end.

(** [t.split(sep)] for a one-character separator: never empty, empty
    pieces are kept. *)
Fixpoint split (sep : ascii) (t : str) : list str :=
  match t with
  | [] => [[]]
  | c :: t' =>
      if Ascii.eqb c sep then [] :: split sep t'
      else match split sep t' with
           | piece :: rest => (c :: piece) :: rest
           | [] => [[c]]
           end
  end.

(** [sep.join(pieces)]. *)
Fixpoint join (sep : str) (pieces : list str) : str :=
  match pieces with
  | [] => []
  | [p] => p
  | p :: rest => p ++ sep ++ join sep rest
  end.

(** [int(t)] for a string of decimal digits.  CPython 3.11 and later
    refuse a string of more than 4300 digits with [ValueError]; that limit
    is not modelled, the value is given for every string of digits. *)
Definition int (t : str) : N :=
  fold_left (fun acc c => (10 * acc + N.of_nat (code c - 48))%N) t 0%N.

(** Truthiness of a string: [if t:]. *)
Definition truthy (t : str) : bool :=
  match t with [] => false | _ :: _ => true end.

End Py.

Import Py.

(* ================================================================== *)
(** ** Python regular expressions *)
(* ================================================================== *)

Module Re.

(** The flags the sources pass: [re.MULTILINE] and [re.DOTALL]. *)
Record flags := { MULTILINE : bool; DOTALL : bool }.

Definition no_flags := {| MULTILINE := false; DOTALL := false |}.
Definition multiline := {| MULTILINE := true; DOTALL := false |}.
Definition dotall := {| MULTILINE := false; DOTALL := true |}.

(** The syntax the patterns of the repository need. *)
Inductive regex :=
| Eps                              (* the empty pattern *)
| Chr (p : ascii -> bool)          (* a literal, a class or an escape such as \s *)
| Dot                              (* . *)
| Seq (r1 r2 : regex)              (* r1r2 *)
| Alt (r1 r2 : regex)              (* r1|r2 *)
| Star (greedy : bool) (r : regex) (* r* and r*? *)
| Group (n : nat) (r : regex)      (* the n-th capturing group *)
| Bol                              (* ^ *)
| Eol                              (* $ *)
| EndZ                             (* \Z *)
| Ahead (r : regex)                (* (?=r) *)
| NotAhead (r : regex)             (* (?!r) *)
| Behind (s : str).                (* (?<=s) for a literal s *)

(** A sequence and a choice of several patterns. *)
Fixpoint cat (rs : list regex) : regex :=
  match rs with
  | [] => Eps
  | [r] => r
  | r :: rs' => Seq r (cat rs')
  end.

Fixpoint alt (rs : list regex) : regex :=
  match rs with
  | [] => Eps
  | [r] => r
  | r :: rs' => Alt r (alt rs')
  end.

(** A literal character and a literal word. *)
Definition ch (c : ascii) : regex := Chr (Ascii.eqb c).

Fixpoint word (s : str) : regex :=
  match s with
  | [] => Eps
  | [c] => ch c
  | c :: s' => Seq (ch c) (word s')
  end.

Definition w (s : string) : regex := word (lit s).
Arguments w s%_string.

(** [r+]. *)
Definition Plus (r : regex) : regex := Seq r (Star true r).

(** The matcher walks the subject with the text already passed (reversed)
    in [before] and the text still ahead in [after]; [caps] records the
    span of every group closed so far, most recent first. *)
Record mstate := {
  before : str;
  after : str;
  caps : list (nat * (nat * nat))
}.

Definition pos (st : mstate) : nat := length (before st).

Definition step (st : mstate) (c : ascii) (rest : str) : mstate :=
  {| before := c :: before st; after := rest; caps := caps st |}.

Definition close_group (n start : nat) (st : mstate) : mstate :=
  {| before := before st; after := after st;
     caps := (n, (start, pos st)) :: caps st |}.

Definition at_bol (fl : flags) (st : mstate) : bool :=
  match before st with
  | [] => true
  | c :: _ => MULTILINE fl && Ascii.eqb c nl
  end.

Definition at_eol (fl : flags) (st : mstate) : bool :=
  match after st with
  | [] => true
  | c :: rest =>
      Ascii.eqb c nl
      && (MULTILINE fl || match rest with [] => true | _ :: _ => false end)
  end.

Definition at_end (st : mstate) : bool :=
  match after st with [] => true | _ :: _ => false end.

Definition dot_ok (fl : flags) (c : ascii) : bool :=
  DOTALL fl || negb (Ascii.eqb c nl).

Definition cont := mstate -> option mstate.

(** Repetition: a greedy loop tries one more round of the body before the
    continuation, a lazy one tries the continuation first.  A round has to
    consume something, which bounds the rounds by the text ahead. *)
Fixpoint star_loop (body : mstate -> cont -> option mstate) (greedy : bool)
    (fuel : nat) (st : mstate) (k : cont) : option mstate :=
  match fuel with
  | 0 => k st
  | S f =>
      let again st' :=
        if length (after st') <? length (after st)
        then star_loop body greedy f st' k else None in
      if greedy then
        match body st again with
        | Some r => Some r
        | None => k st
        end
      else
        match k st with
        | Some r => Some r
        | None => body st again
        end
  end.

(** Backtracking matcher in continuation-passing style: [run fl r st k]
    is the first way, in Python's order of preference, to match [r] at
    [st] such that [k] accepts what follows. *)
Fixpoint run (fl : flags) (r : regex) (st : mstate) (k : cont) {struct r}
  : option mstate :=
  match r with
  | Eps => k st
  | Chr p =>
      match after st with
      | c :: rest => if p c then k (step st c rest) else None
      | [] => None
      end
  | Dot =>
      match after st with
      | c :: rest => if dot_ok fl c then k (step st c rest) else None
      | [] => None
      end
  | Seq r1 r2 => run fl r1 st (fun st' => run fl r2 st' k)
  | Alt r1 r2 =>
      match run fl r1 st k with
      | Some res => Some res
      | None => run fl r2 st k
      end
  | Star greedy r1 =>
      star_loop (run fl r1) greedy (S (length (after st))) st k
  | Group n r1 =>
      run fl r1 st (fun st' => k (close_group n (pos st) st'))
  | Bol => if at_bol fl st then k st else None
  | Eol => if at_eol fl st then k st else None
  | EndZ => if at_end st then k st else None
  | Ahead r1 =>
      match run fl r1 st Some with
      | Some _ => k st
      | None => None
      end
  | NotAhead r1 =>
      match run fl r1 st Some with
      | Some _ => None
      | None => k st
      end
  | Behind s =>
      if starts_with (rev s) (before st) then k st else None
  end.

(** A match object: [start()], [end()] and the group spans. *)
Record match_obj := {
  m_start : nat;
  m_end : nat;
  m_caps : list (nat * (nat * nat))
}.

Fixpoint cap_lookup (n : nat) (cs : list (nat * (nat * nat)))
  : option (nat * nat) :=
  match cs with
  | [] => None
  | (i, span) :: cs' => if i =? n then Some span else cap_lookup n cs'
  end.

(** [m.group(n)] on the subject [t]; group 0 is the whole match.  In the
    patterns of the repository every group takes part in every match, so
    the [None] of a group that did not is not modelled. *)
Definition group (t : str) (m : match_obj) (n : nat) : str :=
  match n with
  | 0 => slice t (m_start m) (m_end m)
  | _ => match cap_lookup n (m_caps m) with
         | Some (a, b) => slice t a b
         | None => []
         end
  end.

(** One attempt at the current position. *)
Definition here (fl : flags) (r : regex) (bef aft : str) : option mstate :=
  run fl r {| before := bef; after := aft; caps := [] |} Some.

Definition obj (start : nat) (st : mstate) : match_obj :=
  {| m_start := start; m_end := pos st; m_caps := caps st |}.

(** Leftmost match at or after the current position. *)
Fixpoint scan (fl : flags) (r : regex) (bef aft : str) : option match_obj :=
  match here fl r bef aft with
  | Some st => Some (obj (length bef) st)
  | None =>
      match aft with
      | [] => None
      | c :: aft' => scan fl r (c :: bef) aft'
      end
  end.

(** [pattern.search(t, start)]: the subject stays [t], so [^] still sees
    what precedes [start]. *)
Definition search_from (fl : flags) (r : regex) (t : str) (start : nat)
  : option match_obj :=
  if start <=? length t
  then scan fl r (rev (firstn start t)) (skipn start t)
  else None.

(** [re.search(r, t, flags)]. *)
Definition search (fl : flags) (r : regex) (t : str) : option match_obj :=
  scan fl r [] t.

(** [re.match(r, t, flags)]: one attempt at the start of [t]. *)
Definition match_ (fl : flags) (r : regex) (t : str) : option match_obj :=
  match here fl r [] t with
  | Some st => Some (obj 0 st)
  | None => None
  end.

(** The non-overlapping matches from left to right.  After a match the
    scan resumes at its end; after an empty match and after a failed
    attempt it moves on by one character. *)
Fixpoint iter (fuel : nat) (fl : flags) (r : regex) (bef aft : str)
  : list match_obj :=
  match fuel with
  | 0 => []
  | S f =>
      match here fl r bef aft with
      | Some st =>
          obj (length bef) st ::
          (if length (after st) <? length aft
           then iter f fl r (before st) (after st)
           else match aft with
                | [] => []
                | c :: aft' => iter f fl r (c :: bef) aft'
                end)
      | None =>
          match aft with
          | [] => []
          | c :: aft' => iter f fl r (c :: bef) aft'
          end
      end
  end.

(** [pattern.finditer(t, start)] and [re.finditer(r, t, flags)]. *)
Definition finditer_from (fl : flags) (r : regex) (t : str) (start : nat)
  : list match_obj :=
  if start <=? length t
  then iter (S (length t)) fl r (rev (firstn start t)) (skipn start t)
  else [].

Definition finditer (fl : flags) (r : regex) (t : str) : list match_obj :=
  iter (S (length t)) fl r [] t.

(** [re.sub(r, repl, t)] for a replacement without group references:
    the text between the matches is copied, every match becomes [repl]. *)
Fixpoint subst (fuel : nat) (fl : flags) (r : regex) (repl : str)
    (bef aft : str) : str :=
  match fuel with
  | 0 => aft
  | S f =>
      match here fl r bef aft with
      | Some st =>
          if length (after st) <? length aft
          then repl ++ subst f fl r repl (before st) (after st)
          else match aft with
               | [] => repl
               | c :: aft' => repl ++ c :: subst f fl r repl (c :: bef) aft'
               end
      | None =>
          match aft with
          | [] => []
          | c :: aft' => c :: subst f fl r repl (c :: bef) aft'
          end
      end
  end.

Definition sub (fl : flags) (r : regex) (repl : str) (t : str) : str :=
  subst (S (length t)) fl r repl [] t.

(** [re.split(r, t)] for a pattern without groups that never matches the
    empty string: the pieces between the matches. *)
Fixpoint pieces (t : str) (from : nat) (ms : list match_obj) : list str :=
  match ms with
  | [] => [slice_from t from]
  | m :: ms' => slice t from (m_start m) :: pieces t (m_end m) ms'
  end.

Definition split (fl : flags) (r : regex) (t : str) : list str :=
  pieces t 0 (finditer fl r t).

End Re.

Import Re.

(* ================================================================== *)
(** ** patterns.py *)
(* ================================================================== *)

Module Patterns.

(** Shorthands for the escapes [\s], [\w] and [\d]. *)
Definition sp : regex := Chr is_space.
Definition wd : regex := Chr is_word.
Definition dg : regex := Chr is_digit.
Definition lazy_any : regex := Star false Dot.

(** *** class PDFPatterns *)

(** [APEX\s+REFERENCE\s+GUIDE] *)
Definition TITLE : regex :=
  cat [w "APEX"; Plus sp; w "REFERENCE"; Plus sp; w "GUIDE"].

(** [Apex is a strongly typed.*?(?=\n\n)] *)
Definition MAIN_DESC : regex :=
  cat [w "Apex is a strongly typed"; lazy_any; Ahead (w "\n\n")].

(** A heading line [^([A-Z][a-zA-Z]+)\s+<kind>\s*$]. *)
Definition heading (kind : string) : regex :=
  cat [Bol; Group 1 (cat [Chr is_upper; Plus (Chr is_alpha)]);
       Plus sp; w kind; Star true sp; Eol].
Arguments heading kind%_string.

(** [^([A-Z][a-zA-Z]+)\s+Namespace\s*$] *)
Definition NAMESPACE_START : regex := heading "Namespace".

(** [(?<=Namespace\n)(.*?)(?=\n\n|\n[A-Z])] *)
Definition NAMESPACE_DESC : regex :=
  cat [Behind (lit "Namespace\n"); Group 1 lazy_any;
       Ahead (alt [w "\n\n"; cat [w "\n"; Chr is_upper]])].

(** [DML_OPERATION['start']]: [^([A-Z][a-zA-Z]+)\s+Statement\s*$] *)
Definition DML_start : regex := heading "Statement".

(** [DML_OPERATION['syntax']]: [Syntax\s*\n(.*?)(?=\n\n)] *)
Definition DML_syntax : regex :=
  cat [w "Syntax"; Star true sp; w "\n"; Group 1 lazy_any; Ahead (w "\n\n")].

(** [DML_OPERATION['description']]: [(?<=Statement\n)(.*?)(?=Syntax)] *)
Definition DML_description : regex :=
  cat [Behind (lit "Statement\n"); Group 1 lazy_any; Ahead (w "Syntax")].

(** [DML_OPERATION['example']]: [Example\s*\n(.*?)(?=\n\n(?:[A-Z]|\Z))] *)
Definition DML_example : regex :=
  cat [w "Example"; Star true sp; w "\n"; Group 1 lazy_any;
       Ahead (cat [w "\n\n"; alt [Chr is_upper; EndZ]])].

(** [^([A-Z][a-zA-Z]+)\s+Class\s*$] *)
Definition CLASS_START : regex := heading "Class".

(** [Class\s+(.*?)(?=\n(?:IN THIS SECTION:|SEE ALSO:|public|private|protected))] *)
Definition CLASS_DESC : regex :=
  cat [w "Class"; Plus sp; Group 1 lazy_any;
       Ahead (cat [w "\n"; alt [w "IN THIS SECTION:"; w "SEE ALSO:";
                                w "public"; w "private"; w "protected"]])].

(** [^(?:public|private|protected)\s+\w+\s+\w+\s*\(] *)
Definition METHOD_START : regex :=
  cat [Bol; alt [w "public"; w "private"; w "protected"];
       Plus sp; Plus wd; Plus sp; Plus wd; Star true sp; w "("].

(** [(?:Signature\n.*?\nReturn Value\nType:.*?\n)(.*?)(?=\n(?:Example|Usage|SEE ALSO))] *)
Definition METHOD_DESC : regex :=
  cat [cat [w "Signature\n"; lazy_any; w "\nReturn Value\nType:"; lazy_any; w "\n"];
       Group 1 lazy_any;
       Ahead (cat [w "\n"; alt [w "Example"; w "Usage"; w "SEE ALSO"]])].

Definition SECTION_MARKERS : list str :=
  [lit "IN THIS SECTION:"; lit "SEE ALSO:"; lit "Usage"; lit "Example"].

(** *** The result dictionaries, one record per dictionary literal *)

Record page_range := { pr_start : N; pr_end : N }.

Record method_info := {
  method_name : str;
  method_signature : str;
  method_description : str;
  method_parameters : list str;
  method_return_type : str
}.

Record class_info := {
  class_name : str;
  class_description : str;
  class_methods : list method_info
}.

Record namespace_info := {
  namespace_name : str;
  namespace_description : str;
  namespace_subsections : list class_info;
  namespace_pageRange : page_range
}.

Record operation := {
  operation_name : str;
  operation_description : str;
  operation_syntax : list str;
  operation_example : str
}.

(** [{'statements': [...]}] *)
Record operations := { statements : list operation }.

(** *** class ContentExtractor *)

(** The two patterns [clean_description] removes and the one it collapses:
    [IN THIS SECTION:|SEE ALSO:], [\[PAGE_\d+\]] and [\s+]. *)
Definition LABELS : regex := alt [w "IN THIS SECTION:"; w "SEE ALSO:"].
Definition PAGE_OPEN : regex := cat [w "[PAGE_"; Plus dg; w "]"].
Definition SPACES : regex := Plus sp.

Definition clean_description (text : str) : str :=
  let text := sub no_flags LABELS [] text in
  let text := sub no_flags PAGE_OPEN [] text in
  let text := strip (sub no_flags SPACES (lit " ") text) in
  text.

(** The extractors share three lines that compute the section of a
    heading match (here for [pattern] and the match [m]):
<<
    start_pos = match.start()
    next_match = re.search(pattern, text[start_pos + 1:])
    end_pos = next_match.start() + start_pos if next_match else len(text)
>>
    The inner search passes no flags. *)
Definition start_pos (m : match_obj) : nat := m_start m.

Definition end_pos (pattern : regex) (text : str) (m : match_obj) : nat :=
  match search no_flags pattern (slice_from text (start_pos m + 1)) with
  | Some next_match => m_start next_match + start_pos m
  | None => length text
  end.

Definition section (pattern : regex) (text : str) (m : match_obj) : str :=
  slice text (start_pos m) (end_pos pattern text m).

(** [\[PAGE_(\d+)\]] and [\[/PAGE_(\d+)\](?!.*\[/PAGE_\d+\])] *)
Definition PAGE_FIRST : regex := cat [w "[PAGE_"; Group 1 (Plus dg); w "]"].
Definition PAGE_LAST : regex :=
  cat [w "[/PAGE_"; Group 1 (Plus dg); w "]";
       NotAhead (cat [Star true Dot; w "[/PAGE_"; Plus dg; w "]"])].

Definition find_page_range (content : str) : page_range :=
  let start_match := search no_flags PAGE_FIRST content in
  let end_match := search no_flags PAGE_LAST content in
  {| pr_start := match start_match with
                 | Some m => int (group content m 1)
                 | None => 0%N
                 end;
     pr_end := match end_match with
               | Some m => int (group content m 1)
               | None => 0%N
               end |}.

(** [\((.*?)\)] *)
Definition PARAMS : regex := cat [w "("; Group 1 lazy_any; w ")"].

Definition extract_parameters (signature : str) : list str :=
  match search no_flags PARAMS signature with
  | Some param_match =>
      let param_str := group signature param_match 1 in
      if truthy (strip param_str)
      then map strip (Py.split ","%char param_str)
      else []
  | None => []
  end.

(** [Return.*?Type:\s*] followed by group 1, [\w+(?:\.\w+)*] *)
Definition RETURN_TYPE : regex :=
  cat [w "Return"; lazy_any; w "Type:"; Star true sp;
       Group 1 (cat [Plus wd; Star true (cat [w "."; Plus wd])])].

Definition extract_return_type (content : str) : str :=
  match search dotall RETURN_TYPE content with
  | Some return_match => group content return_match 1
  | None => []
  end.

(** [\w+\s*\(] *)
Definition NAME : regex := cat [Plus wd; Star true sp; w "("].

Definition extract_methods (text : str) : list method_info :=
  map (fun m =>
         let method_content := section METHOD_START text m in
         let signature_lines := hd [] (Py.split nl method_content) in
         {| method_name :=
              match search no_flags NAME signature_lines with
              | Some name_match =>
                  strip (removelast (group signature_lines name_match 0))
              | None => []
              end;
            method_signature := strip signature_lines;
            method_description :=
              match search dotall METHOD_DESC method_content with
              | Some desc_match =>
                  clean_description (strip (group method_content desc_match 1))
              | None => []
              end;
            method_parameters := extract_parameters signature_lines;
            method_return_type := extract_return_type method_content |})
      (finditer multiline METHOD_START text).

Definition extract_classes (text : str) : list class_info :=
  map (fun m =>
         let class_content := section CLASS_START text m in
         {| class_name := group text m 1 ++ lit " Class";
            class_description :=
              match search dotall CLASS_DESC class_content with
              | Some desc_match =>
                  clean_description (strip (group class_content desc_match 1))
              | None => []
              end;
            class_methods := extract_methods class_content |})
      (finditer multiline CLASS_START text).

Definition extract_namespaces (text : str) : list namespace_info :=
  map (fun m =>
         let section_content := section NAMESPACE_START text m in
         {| namespace_name := group text m 1;
            namespace_description :=
              match search dotall NAMESPACE_DESC section_content with
              | Some desc_match =>
                  clean_description (strip (group section_content desc_match 1))
              | None => []
              end;
            namespace_subsections := extract_classes section_content;
            namespace_pageRange := find_page_range section_content |})
      (finditer multiline NAMESPACE_START text).

Definition extract_dml_operations (text : str) : operations :=
  {| statements :=
       map (fun m =>
              let operation_content := section DML_start text m in
              {| operation_name := group text m 1 ++ lit " Statement";
                 operation_description :=
                   match search dotall DML_description operation_content with
                   | Some desc_match =>
                       strip (group operation_content desc_match 1)
                   | None => []
                   end;
                 operation_syntax :=
                   match search dotall DML_syntax operation_content with
                   | Some syntax_match =>
                       map strip
                         (filter (fun s => truthy (strip s))
                            (Py.split nl (group operation_content syntax_match 1)))
                   | None => []
                   end;
                 operation_example :=
                   match search dotall DML_example operation_content with
                   | Some example_match =>
                       strip (group operation_content example_match 1)
                   | None => []
                   end |})
           (finditer multiline DML_start text) |}.

End Patterns.

(* ================================================================== *)
(** ** apex_parser.py *)
(* ================================================================== *)

Module ApexParser.

Record method_def := {
  method_signature : str;
  method_description : str
}.

Record class_def := {
  class_name : str;
  class_description : str;
  class_methods : list method_def
}.

Record namespace := {
  namespace_name : str;
  namespace_description : str;
  namespace_classes : list class_def
}.

Record document := {
  title : str;
  description : str;
  namespaces : list namespace
}.

(** [^(\w+)\s+Namespace] and [^(\w+)\s+Class], both compiled with
    [re.MULTILINE]; [^(public|private|protected)\s+\w+\s+\w+\(.*\)],
    compiled without flags and so anchored at the very start of the text. *)
Definition namespace_pattern : regex :=
  cat [Bol; Group 1 (Plus Patterns.wd); Plus Patterns.sp; w "Namespace"].
Definition class_pattern : regex :=
  cat [Bol; Group 1 (Plus Patterns.wd); Plus Patterns.sp; w "Class"].
Definition method_pattern : regex :=
  cat [Bol; Group 1 (alt [w "public"; w "private"; w "protected"]);
       Plus Patterns.sp; Plus Patterns.wd; Plus Patterns.sp; Plus Patterns.wd;
       w "("; Star true Dot; w ")"].

Definition extract_section_description (text : str) (start_pos : nat) : str :=
  match find text (lit "\n\n") start_pos with
  | Some end_pos => strip (slice text start_pos end_pos)
  | None => strip (slice_from text start_pos)
  end.

Definition methods_of (text : str) (class_match : match_obj) : list method_def :=
  map (fun method_match =>
         {| method_signature := group text method_match 0;
            method_description :=
              extract_section_description text (m_end method_match) |})
      (finditer_from no_flags method_pattern text (m_end class_match)).

(** The loop over the class matches of one namespace: every class is
    appended, and the loop is left after the first one that is followed,
    anywhere later in the text, by a namespace heading. *)
Fixpoint classes_loop (text : str) (class_matches : list match_obj)
  : list class_def :=
  match class_matches with
  | [] => []
  | class_match :: rest =>
      {| class_name := group text class_match 1;
         class_description :=
           extract_section_description text (m_end class_match);
         class_methods := methods_of text class_match |}
      :: match search_from multiline namespace_pattern text (m_end class_match) with
         | Some _ => []
         | None => classes_loop text rest
         end
  end.

Definition extract_namespaces (text : str) : list namespace :=
  map (fun m =>
         {| namespace_name := group text m 1;
            namespace_description := extract_section_description text (m_end m);
            namespace_classes :=
              classes_loop text
                (finditer_from multiline class_pattern text (m_end m)) |})
      (finditer multiline namespace_pattern text).

Definition parse_document (text : str) : document :=
  {| title := lit "Apex Reference Guide";
     description := lit "Extracted Apex content organized by namespaces.";
     namespaces := extract_namespaces text |}.

End ApexParser.

(* ================================================================== *)
(** ** simpleChunker.py: what [extract_data] does with one paragraph *)
(* ================================================================== *)

Module SimpleChunker.

Record parameter := { param_type : str; param_name : str }.

(** The entries of [content_list], by their ["type"]. *)
Inductive content_item :=
| list_item (content : list str)
| code_item (content : str)
| method_item (name signature : str) (parameters : list parameter)
              (return_type : str)
| paragraph_item (content : str).

(** [(public|global|static)\s+([\w<>\[\]\s]+)\s+(\w+)\s*\(] followed by
    group 4, [.*], and [\)] *)
Definition SIGNATURE : regex :=
  cat [Group 1 (alt [w "public"; w "global"; w "static"]);
       Plus Patterns.sp;
       Group 2 (Plus (Chr (fun c => is_word c || one_of "<>[]" c || is_space c)));
       Plus Patterns.sp;
       Group 3 (Plus Patterns.wd);
       Star true Patterns.sp; w "("; Group 4 (Star true Dot); w ")"].

(** [,\s*(?![^<>\[\]()]*[\])])] *)
Definition COMMA : regex :=
  cat [w ","; Star true Patterns.sp;
       NotAhead (cat [Star true (Chr (fun c => negb (one_of "<>[]()" c)));
                      Chr (one_of "])")])].

Definition parameter_of (param : str) : parameter :=
  let param_parts := Py.split " "%char (strip param) in
  {| param_type := join (lit " ") (removelast param_parts);
     param_name := last param_parts [] |}.

Definition content_item_of (paragraph : str) : content_item :=
  if starts_with (lit "*") paragraph then
    list_item (map (fun item => skipn 2 (strip item))
                   (Py.split nl (strip paragraph)))
  else if starts_with (lit "Signature") paragraph then
    code_item (strip paragraph)
  else if contains (lit "public ") paragraph
          || contains (lit "global ") paragraph
          || contains (lit "static ") paragraph then
    match match_ no_flags SIGNATURE paragraph with
    | Some m =>
        let return_type := strip (group paragraph m 2) in
        let name := group paragraph m 3 in
        let parameters_str := group paragraph m 4 in
        let parameters :=
          if truthy parameters_str
          then map parameter_of (Re.split no_flags COMMA parameters_str)
          else [] in
        method_item name (strip paragraph) parameters return_type
    | None => paragraph_item (strip paragraph)
    end
  else paragraph_item (strip paragraph).

(** *** The sections of a page

    [extract_data] opens the file with pdfplumber and reads the text of
    each page; below it is given the texts of the pages.  [sections_of],
    [title_and_content] and [section_of] are the body of the loop over
    the pages. *)

(** [--- PAGE \d+ ---\n], [\n\n], [\d+] and [\n(?=[A-Z])] *)
Definition PAGE_MARK : regex :=
  cat [w "--- PAGE "; Plus Patterns.dg; w " ---\n"].
Definition BLANK_LINE : regex := w "\n\n".
Definition DIGITS : regex := Plus Patterns.dg.
Definition NEW_PARAGRAPH : regex := cat [w "\n"; Ahead (Chr is_upper)].

Record section := { title : str; content : list content_item }.

(** [re.split(r'--- PAGE \d+ ---\n', text)[1:]] *)
Definition sections_of (text : str) : list str :=
  tl (Re.split no_flags PAGE_MARK text).

(** [title, content = re.split(r'\n\n', section, 1)]: a section without
    an empty line gives one piece, the unpacking raises [ValueError] and
    the handler takes the whole section as content. *)
Definition title_and_content (sec : str) : str * str :=
  match search no_flags BLANK_LINE sec with
  | Some m => (slice sec 0 (m_start m), slice_from sec (m_end m))
  | None => ([], sec)
  end.

Definition section_of (sec : str) : section :=
  let '(title, content) := title_and_content sec in
  let title := strip (sub no_flags DIGITS [] title) in
  let content := strip content in
  let paragraphs := Re.split no_flags NEW_PARAGRAPH content in
  {| title := title; content := map content_item_of paragraphs |}.

Record json_data := { document : str; sections : list section }.

Definition extract_data (pages : list str) : json_data :=
  {| document := lit "Apex Reference Guide";
     sections :=
       flat_map (fun text => map section_of (sections_of text)) pages |}.

End SimpleChunker.

(* ================================================================== *)
(** ** processor.py *)
(* ================================================================== *)

Module Processor.

(** What [pdfplumber] hands over: the text of every page, or an
    exception somewhere on the way.  A page without text ([None] or the
    empty string) is the empty string here. *)
Inductive pdf :=
| Unreadable
| Pages (texts : list str).

Definition decimal (n : nat) : str :=
  list_ascii_of_string (NilEmpty.string_of_uint (Nat.to_uint n)).

(** The loop of [extract_text_from_pdf] over [enumerate(pdf.pages)],
    started at index [i]. *)
Fixpoint all_text (i : nat) (texts : list str) : str :=
  match texts with
  | [] => []
  | text :: rest =>
      (if truthy text
       then lit "\n[PAGE_" ++ decimal (i + 1) ++ lit "]\n" ++ text
            ++ lit "\n[/PAGE_" ++ decimal (i + 1) ++ lit "]\n"
       else [])
      ++ all_text (S i) rest
  end.

(** [extract_text_from_pdf] on a fresh processor, with
    [self.current_page] as it is left. *)
Definition extract_text_from_pdf (p : pdf) : option str * nat :=
  match p with
  | Unreadable => (None, 0)
  | Pages texts => (Some (all_text 0 texts), length texts)
  end.

Record metadata := { totalPages : nat; note : str }.

Record document := {
  title : str;
  description : str;
  meta : metadata;
  sections : list Patterns.namespace_info;
  dmlOperations : Patterns.operations
}.

(** [process_pdf] returns the dictionary [{}] or a filled document. *)
Inductive result :=
| empty_dict
| doc (d : document).

Definition process_pdf (p : pdf) : result :=
  let '(text, current_page) := extract_text_from_pdf p in
  match text with
  | None => empty_dict
  | Some text =>
      if negb (truthy text) then empty_dict
      else
        doc {| title :=
                 match search no_flags Patterns.TITLE text with
                 | Some title_match => group text title_match 0
                 | None => []
                 end;
               description :=
                 match search dotall Patterns.MAIN_DESC text with
                 | Some desc_match => group text desc_match 0
                 | None => []
                 end;
               meta :=
                 {| totalPages := current_page;
                    note := lit "In API version 51.0 and earlier, Apex Reference information was included in the Apex Developer Guide" |};
               sections := Patterns.extract_namespaces text;
               dmlOperations := Patterns.extract_dml_operations text |}
  end.

End Processor.

(* ================================================================== *)
(** ** What the specification says, where it is compared with the code *)
(* ================================================================== *)

Module Spec.

Definition earlier (a b : option nat) : option nat :=
  match a, b with
  | Some x, Some y => Some (Nat.min x y)
  | Some x, None => Some x
  | None, _ => b
  end.

(** The description as section 4.2 of the specification words it: the
    text from the end of the heading line up to the first paragraph break
    or section-marker keyword, whichever comes first, trimmed. *)
Definition first_terminator (text : str) (start_pos : nat) : option nat :=
  fold_left earlier
    (map (fun p => find text p start_pos)
         (lit "\n\n" :: Patterns.SECTION_MARKERS))
    None.

Definition description_by_spec (text : str) (start_pos : nat) : str :=
  match first_terminator text start_pos with
  | Some end_pos => strip (slice text start_pos end_pos)
  | None => strip (slice_from text start_pos)
  end.

(** The description cleaner as section 4.4 of the specification words it:
    the labels and the page markers are cut out, every run of whitespace
    becomes one blank, the result is trimmed.  The labels are the two
    that the code has a pattern for. *)

Definition IN_THIS_SECTION : str := lit "IN THIS SECTION:".
Definition SEE_ALSO : str := lit "SEE ALSO:".

(** The length of the label that begins [t], if one does. *)
Definition label_at (t : str) : option nat :=
  if starts_with IN_THIS_SECTION t then Some (length IN_THIS_SECTION)
  else if starts_with SEE_ALSO t then Some (length SEE_ALSO)
  else None.

Fixpoint count_digits (t : str) : nat :=
  match t with
  | c :: t' => if is_digit c then S (count_digits t') else 0
  | [] => 0
  end.

(** The length of the opening page marker, [[PAGE_] digits []], that
    begins [t], if one does. *)
Definition open_marker_at (t : str) : option nat :=
  if starts_with (lit "[PAGE_") t then
    let n := count_digits (skipn 6 t) in
    if (0 <? n) && starts_with (lit "]") (skipn (6 + n) t)
    then Some (6 + n + 1) else None
  else None.

(** The same for the closing page marker, [[/PAGE_] digits []]. *)
Definition close_marker_at (t : str) : option nat :=
  if starts_with (lit "[/PAGE_") t then
    let n := count_digits (skipn 7 t) in
    if (0 <? n) && starts_with (lit "]") (skipn (7 + n) t)
    then Some (7 + n + 1) else None
  else None.

Definition page_marker_at (t : str) : option nat :=
  match open_marker_at t with
  | Some n => Some n
  | None => close_marker_at t
  end.

(** [t] without the tokens that [token_at] finds from left to right;
    [skip] characters of a token found earlier are still to be dropped. *)
Fixpoint delete_all (token_at : str -> option nat) (skip : nat) (t : str)
  : str :=
  match t with
  | [] => []
  | c :: t' =>
      match skip with
      | S k => delete_all token_at k t'
      | 0 =>
          match token_at t with
          | Some (S k) => delete_all token_at k t'
          | _ => c :: delete_all token_at 0 t'
          end
      end
  end.

(** Every run of whitespace becomes one blank; [in_run] says that the
    run's blank is already written. *)
Fixpoint squeeze (in_run : bool) (t : str) : str :=
  match t with
  | [] => []
  | c :: t' =>
      if is_space c
      then (if in_run then squeeze true t' else " "%char :: squeeze true t')
      else c :: squeeze false t'
  end.

Definition without_labels (text : str) : str := delete_all label_at 0 text.

Definition clean (text : str) : str :=
  strip (squeeze false (delete_all page_marker_at 0 (without_labels text))).

End Spec.

(* ================================================================== *)
(** ** Shapes of cleaned text *)
(* ================================================================== *)

(** The text begins, or ends, with a whitespace character. *)
Definition starts_space (t : str) : bool :=
  match t with
  | c :: _ => is_space c
  | [] => false
  end.

Definition ends_space (t : str) : bool := starts_space (rev t).

(** Two whitespace characters stand side by side somewhere in the text. *)
Fixpoint double_space (t : str) : bool :=
  match t with
  | a :: t' => (is_space a && starts_space t') || double_space t'
  | [] => false
  end.

(** Every whitespace character is a single blank between other text. *)
Fixpoint normal (t : str) : bool :=
  match t with
  | a :: t' =>
      (if is_space a then Ascii.eqb a " "%char && negb (starts_space t')
       else true)
      && normal t'
  | [] => true
  end.

(** The characters of a text that are not whitespace, in order. *)
Definition ink (t : str) : str := filter (fun c => negb (is_space c)) t.

(** The spans [(start_pos, end_pos)] the extractors of patterns.py give
    the headings of one pattern. *)
Definition heading_spans (pattern : regex) (text : str) : list (nat * nat) :=
  map (fun m => (Patterns.start_pos m, Patterns.end_pos pattern text m))
      (finditer multiline pattern text).

(** A paragraph break, ["\n\n"]. *)
Definition break : str := [nl; nl].

(** Texts the statements below are evaluated on. *)
Module Fixture.

Definition two_namespaces : str :=
  lit "Foo Namespace\nbody\nBar Namespace\nbody2".

Definition class_after_second : str :=
  lit "Foo Namespace\nBar Namespace\nBaz Class\n".

Definition two_pages : str :=
  lit "[PAGE_3]\nFoo Namespace\n[/PAGE_3]\n[PAGE_4]\nmore\n[/PAGE_4]\n".

Definition spec_signature : str :=
  lit "public List<Map<Id, String>> getThing(Integer i, String s)".

Definition map_signature : str :=
  lit "public void put(Map<Id, String> m, Integer i)".

Definition described : str :=
  lit "Foo Namespace\nIntro text\nSEE ALSO:\nother\n\nrest".

Definition nested_label : str := lit "SEE SEE ALSO:ALSO:".

End Fixture.

Definition paren_l : ascii := "("%char.
Definition paren_r : ascii := ")"%char.

(** What follows the lazy group of [Patterns.PARAMS]: the group is closed
    and a closing parenthesis is read. *)
Definition close_paren (start : nat) : cont :=
  fun st => run no_flags (ch paren_r) (close_group 1 start st) Some.

(** The zipper after the longest run of characters satisfying [p]. *)
Fixpoint eat (p : ascii -> bool) (bef aft : str) : str * str :=
  match aft with
  | c :: rest => if p c then eat p (c :: bef) rest else (bef, aft)
  | [] => (bef, aft)
  end.

(* ================================================================== *)
(** ** Vocabulary of the further properties *)
(* ================================================================== *)

(** [st'] is [st] moved forward over some characters. *)
Definition advance (st st' : mstate) : Prop :=
  exists w, after st = w ++ after st' /\ before st' = rev w ++ before st.

(** Whatever a pattern does, the continuation is entered further on in the
    same text. *)
Definition forwards (body : mstate -> cont -> option mstate) : Prop :=
  forall st k res, body st k = Some res ->
    exists st', advance st st' /\ k st' = Some res.

(** [c in t]. *)
Definition has (c : ascii) (t : str) : bool := existsb (Ascii.eqb c) t.

(** Neither the first nor the last character is whitespace. *)
Definition trimmed (t : str) : bool := negb (starts_space t) && negb (ends_space t).

(** The characters of a decimal numeral. *)
Definition numeral (u : Decimal.uint) : str :=
  list_ascii_of_string (NilEmpty.string_of_uint u).

(** One step of [int]: the next digit is appended to the value. *)
Definition int_step (acc : N) (c : ascii) : N :=
  (10 * acc + N.of_nat (code c - 48))%N.

(** The markers [extract_text_from_pdf] writes around page [n]. *)
Definition open_mark (n : nat) : str :=
  lit "[PAGE_" ++ Processor.decimal n ++ lit "]".
Definition close_mark (n : nat) : str :=
  lit "[/PAGE_" ++ Processor.decimal n ++ lit "]".

(** [r] has no group and reads only characters in [q]. *)
Fixpoint reads (q : ascii -> bool) (r : regex) : Prop :=
  match r with
  | Eps | Bol | Eol | EndZ | Ahead _ | NotAhead _ | Behind _ => True
  | Chr p => forall c, p c = true -> q c = true
  | Dot => forall c, q c = true
  | Seq r1 r2 | Alt r1 r2 => reads q r1 /\ reads q r2
  | Star _ r1 => reads q r1
  | Group _ _ => False
  end.

(** The continuation is entered after a stretch of characters in [q],
    with the groups as they were. *)
Definition passes (q : ascii -> bool) (body : mstate -> cont -> option mstate)
  : Prop :=
  forall st k res, body st k = Some res ->
    exists v tail,
      after st = v ++ tail /\ forallb q v = true
      /\ k {| before := rev v ++ before st; after := tail; caps := caps st |}
         = Some res.

(** Every character. *)
Definition any (c : ascii) : bool := true.

(** A capital letter followed by at least one more letter. *)
Definition capitalised (t : str) : bool :=
  match t with
  | u :: (_ :: _) as us => is_upper u && forallb is_alpha us
  | _ => false
  end.

(** Empty, or a word character followed by word characters and dots. *)
Definition dotted_name (t : str) : bool :=
  match t with
  | [] => true
  | c :: v => is_word c && forallb (fun x => is_word x || Ascii.eqb x "."%char) v
  end.

(** Trimmed, and every whitespace character a single blank. *)
Definition tidy (t : str) : bool := normal t && trimmed t.

(** The entry the loop over the class matches appends for one match. *)
Definition class_of (text : str) (class_match : match_obj) : ApexParser.class_def :=
  {| ApexParser.class_name := group text class_match 1;
     ApexParser.class_description :=
       ApexParser.extract_section_description text (m_end class_match);
     ApexParser.class_methods := ApexParser.methods_of text class_match |}.

(** A non-empty run of word characters. *)
Definition identifier (t : str) : bool :=
  truthy t && forallb is_word t.

(** [token_at] tells where [r] matches and how far. *)
Definition recognises (r : regex) (token_at : str -> option nat) : Prop :=
  forall bef aft,
    match token_at aft with
    | Some n =>
        0 < n /\ n <= length aft
        /\ exists st, here no_flags r bef aft = Some st
                      /\ after st = skipn n aft
    | None => here no_flags r bef aft = None
    end.

(* ================================================================== *)
(** ** Lemmas on strings *)
(* ================================================================== *)


Lemma lstrip_suffix : forall t, exists a, t = a ++ lstrip t.
Proof.
  induction t as [|c t [a IH]]; simpl.
  - exists []. reflexivity.
  - destruct (is_space c).
    + exists (c :: a). simpl. f_equal. exact IH.
    + exists []. reflexivity.
Qed.

Lemma lstrip_starts : forall t, starts_space (lstrip t) = false.
Proof.
  induction t as [|c t IH]; simpl; [reflexivity|].
  destruct (is_space c) eqn:Hc; [exact IH | simpl; exact Hc].
Qed.

Lemma lstrip_fixed t : starts_space t = false -> lstrip t = t.
Proof. destruct t as [|c t]; simpl; [reflexivity|]. intros ->. reflexivity. Qed.

Lemma lstrip_blank : forall t, Forall (fun c => is_space c = true) t -> lstrip t = [].
Proof.
  induction t as [|c t IH]; intros H; [reflexivity|].
  inversion H as [|? ? Hc Ht]; subst. simpl. rewrite Hc. apply IH, Ht.
Qed.

Lemma rstrip_prefix t : exists b, t = rstrip t ++ b.
Proof.
  unfold rstrip. destruct (lstrip_suffix (rev t)) as [a Ha].
  exists (rev a). rewrite <- rev_app_distr, <- Ha, rev_involutive. reflexivity.
Qed.

Lemma rstrip_ends t : ends_space (rstrip t) = false.
Proof. unfold ends_space, rstrip. rewrite rev_involutive. apply lstrip_starts. Qed.

Lemma rstrip_starts t : starts_space t = false -> starts_space (rstrip t) = false.
Proof.
  intros H. destruct (rstrip_prefix t) as [b Hb].
  destruct (rstrip t) as [|c r] eqn:E; [reflexivity|].
  rewrite Hb in H. exact H.
Qed.

Lemma strip_starts t : starts_space (strip t) = false.
Proof. unfold strip. apply rstrip_starts, lstrip_starts. Qed.

Lemma strip_ends t : ends_space (strip t) = false.
Proof. unfold strip. apply rstrip_ends. Qed.

Lemma strip_fixed t :
  starts_space t = false -> ends_space t = false -> strip t = t.
Proof.
  intros Hs He. unfold strip, rstrip. rewrite (lstrip_fixed _ Hs).
  unfold ends_space in He. rewrite (lstrip_fixed _ He). apply rev_involutive.
Qed.

Lemma strip_blank t : Forall (fun c => is_space c = true) t -> strip t = [].
Proof. intros H. unfold strip. rewrite (lstrip_blank H). reflexivity. Qed.

Lemma normal_no_double : forall t, normal t = true -> double_space t = false.
Proof.
  induction t as [|a t IH]; simpl; [reflexivity|].
  intros H. apply andb_true_iff in H as [Ha Hn].
  rewrite (IH Hn), orb_false_r.
  destruct (is_space a); [|reflexivity].
  apply andb_true_iff in Ha as [_ Ha].
  apply negb_true_iff in Ha. rewrite Ha. reflexivity.
Qed.

Lemma normal_app_r : forall a b, normal (a ++ b) = true -> normal b = true.
Proof.
  induction a as [|x a IH]; simpl; intros b H; [exact H|].
  apply andb_true_iff in H as [_ H]. apply IH, H.
Qed.

Lemma normal_app_l : forall a b, normal (a ++ b) = true -> normal a = true.
Proof.
  induction a as [|x a IH]; simpl; intros b H; [reflexivity|].
  apply andb_true_iff in H as [Hx H].
  rewrite (IH _ H), andb_true_r.
  destruct (is_space x); [|reflexivity].
  apply andb_true_iff in Hx as [Hx1 Hx2]. rewrite Hx1. simpl.
  destruct a as [|y a]; [reflexivity|]. exact Hx2.
Qed.

Lemma strip_normal t : normal t = true -> normal (strip t) = true.
Proof.
  intros H. unfold strip.
  destruct (lstrip_suffix t) as [a Ha].
  destruct (rstrip_prefix (lstrip t)) as [b Hb].
  rewrite Ha in H. apply normal_app_r in H.
  rewrite Hb in H. apply normal_app_l in H. exact H.
Qed.

(** [find_at] only adds the index it starts from. *)
Lemma find_at_none p : forall t i j, find_at p t i = None -> find_at p t j = None.
Proof.
  induction t as [|c t IH]; intros i j; simpl.
  - destruct (starts_with p []); [discriminate | reflexivity].
  - destruct (starts_with p (c :: t)); [discriminate | apply IH].
Qed.

Lemma skipn_prefix (pre t : str) : skipn (length pre) (pre ++ t) = t.
Proof. induction pre; simpl; auto. Qed.

Lemma slice_middle (pre body rest : str) :
  slice (pre ++ body ++ rest) (length pre) (length pre + length body) = body.
Proof.
  unfold slice. rewrite skipn_prefix.
  replace (length pre + length body - length pre) with (length body) by lia.
  induction body; simpl; [reflexivity | f_equal; assumption].
Qed.

(** The first paragraph break after a body that holds none. *)
Lemma find_at_break : forall body rest i,
  contains break (body ++ [nl]) = false ->
  find_at break (body ++ break ++ rest) i = Some (i + length body).
Proof.
  induction body as [|c body IH]; intros rest i H.
  - simpl. rewrite Nat.add_0_r. reflexivity.
  - unfold contains in H.
    change (find_at break ((c :: body) ++ [nl]) 0)
      with (if starts_with break (c :: body ++ [nl]) then Some 0
            else find_at break (body ++ [nl]) 1) in H.
    change (find_at break ((c :: body) ++ break ++ rest) i)
      with (if starts_with break (c :: body ++ break ++ rest) then Some i
            else find_at break (body ++ break ++ rest) (S i)).
    destruct (starts_with break (c :: body ++ [nl])) eqn:Hs; [discriminate|].
    replace (starts_with break (c :: body ++ break ++ rest)) with false.
    + rewrite IH.
      * f_equal. simpl. lia.
      * unfold contains.
        destruct (find_at break (body ++ [nl]) 1) eqn:E; [discriminate|].
        rewrite (@find_at_none break (body ++ [nl]) 1 0 E). reflexivity.
    + rewrite <- Hs. destruct body; reflexivity.
Qed.

Lemma find_at_no_break : forall body i,
  contains break body = false -> find_at break body i = None.
Proof.
  intros body i H. unfold contains in H.
  destruct (find_at break body 0) eqn:E; [discriminate|].
  apply (@find_at_none break body 0 i E).
Qed.


(* ================================================================== *)
(** ** Lemmas on the matcher *)
(* ================================================================== *)

Lemma eat_length p : forall aft bef, length (snd (eat p bef aft)) <= length aft.
Proof.
  induction aft as [|c rest IH]; intros bef; simpl; [lia|].
  destruct (p c); simpl; [specialize (IH (c :: bef)); lia | lia].
Qed.

Lemma eat_stops p : forall aft bef,
  match snd (eat p bef aft) with c :: _ => p c = false | [] => True end.
Proof.
  induction aft as [|c rest IH]; intros bef; simpl; [exact I|].
  destruct (p c) eqn:Hp; simpl; [apply IH | exact Hp].
Qed.

Lemma eat_space_stops aft bef :
  starts_space (snd (eat is_space bef aft)) = false.
Proof.
  pose proof (eat_stops is_space aft bef) as H.
  destruct (snd (eat is_space bef aft)); simpl; auto.
Qed.

Lemma eat_nothing p aft bef :
  match aft with c :: _ => p c = false | [] => True end ->
  eat p bef aft = (bef, aft).
Proof.
  destruct aft as [|c rest]; simpl; [reflexivity|].
  intros ->. reflexivity.
Qed.

Lemma ltb_tail (c : ascii) (rest : str) :
  (length rest <? length (c :: rest)) = true.
Proof. apply Nat.ltb_lt. simpl. lia. Qed.

(** A greedy [p*] followed by nothing takes the longest run of [p]. *)
Lemma star_chr_greedy fl p : forall fuel st,
  length (after st) < fuel ->
  star_loop (run fl (Chr p)) true fuel st Some =
  Some {| before := fst (eat p (before st) (after st));
          after := snd (eat p (before st) (after st));
          caps := caps st |}.
Proof.
  induction fuel as [|f IH]; intros st Hlen; [lia|].
  destruct st as [bef aft cs]; simpl in *.
  destruct aft as [|c rest]; simpl; [reflexivity|].
  destruct (p c) eqn:Hp; [|reflexivity].
  unfold step; simpl.
  replace (length rest <? S (length rest)) with true
    by (symmetry; apply Nat.ltb_lt; lia).
  rewrite IH by (simpl in *; lia). reflexivity.
Qed.

(** One attempt of [p+]. *)
Lemma here_plus fl p bef aft :
  here fl (Plus (Chr p)) bef aft =
  match aft with
  | c :: rest =>
      if p c then Some {| before := fst (eat p (c :: bef) rest);
                          after := snd (eat p (c :: bef) rest); caps := [] |}
      else None
  | [] => None
  end.
Proof.
  unfold here, Plus. simpl.
  destruct aft as [|c rest]; [reflexivity|].
  destruct (p c); [|reflexivity].
  change (star_loop (run fl (Chr p)) true (S (length rest))
            (step {| before := bef; after := c :: rest; caps := [] |} c rest)
            Some =
          Some {| before := fst (eat p (c :: bef) rest);
                  after := snd (eat p (c :: bef) rest); caps := [] |}).
  rewrite star_chr_greedy by (simpl; lia). reflexivity.
Qed.

Lemma here_SPACES bef aft :
  here no_flags Patterns.SPACES bef aft =
  match aft with
  | c :: rest =>
      if is_space c
      then Some {| before := fst (eat is_space (c :: bef) rest);
                   after := snd (eat is_space (c :: bef) rest); caps := [] |}
      else None
  | [] => None
  end.
Proof. apply here_plus. Qed.

(** [re.sub(r'\s+', ' ', t)] leaves single blanks only, and begins with
    text when [t] does. *)
Lemma sub_spaces_normal : forall fuel bef aft,
  length aft < fuel ->
  normal (subst fuel no_flags Patterns.SPACES [" "%char] bef aft) = true
  /\ (starts_space aft = false ->
      starts_space (subst fuel no_flags Patterns.SPACES [" "%char] bef aft)
      = false).
Proof.
  induction fuel as [|f IH]; intros bef aft Hlen; [lia|].
  cbn [subst]. rewrite here_SPACES.
  destruct aft as [|c rest]; [split; reflexivity|].
  simpl in Hlen.
  destruct (is_space c) eqn:Hc.
  - cbn [after before].
    pose proof (eat_length is_space rest (c :: bef)) as Hle.
    replace (length (snd (eat is_space (c :: bef) rest)) <? length (c :: rest))
      with true by (symmetry; apply Nat.ltb_lt; simpl; lia).
    destruct (IH (fst (eat is_space (c :: bef) rest))
                 (snd (eat is_space (c :: bef) rest))) as [Hn Hs]; [lia|].
    specialize (Hs (eat_space_stops rest (c :: bef))).
    split.
    + cbn [app normal]. rewrite Hn, Hs. reflexivity.
    + simpl. rewrite Hc. discriminate.
  - destruct (IH (c :: bef) rest) as [Hn Hs]; [lia|].
    split.
    + cbn [normal]. rewrite Hc. exact Hn.
    + intros _. simpl. exact Hc.
Qed.

(** ... and changes nothing in a text that already has that shape. *)
Lemma sub_spaces_fixed : forall fuel aft bef,
  length aft < fuel -> normal aft = true ->
  subst fuel no_flags Patterns.SPACES [" "%char] bef aft = aft.
Proof.
  induction fuel as [|f IH]; intros aft bef Hlen Hn; [lia|].
  cbn [subst]. rewrite here_SPACES.
  destruct aft as [|c rest]; [reflexivity|].
  simpl in Hlen. cbn [normal] in Hn. apply andb_true_iff in Hn as [Hc Hn].
  destruct (is_space c) eqn:Hsp.
  - apply andb_true_iff in Hc as [Hc1 Hc2].
    apply Ascii.eqb_eq in Hc1. apply negb_true_iff in Hc2.
    rewrite eat_nothing by (destruct rest; simpl in *; auto).
    cbn [fst snd after before]. rewrite ltb_tail.
    rewrite IH by (auto; lia). subst c. reflexivity.
  - rewrite IH by (auto; lia). reflexivity.
Qed.

(** A pattern that matches nowhere is replaced nowhere. *)
Lemma sub_no_match fl r repl : forall aft bef fuel,
  scan fl r bef aft = None -> length aft < fuel ->
  subst fuel fl r repl bef aft = aft.
Proof.
  induction aft as [|c rest IH]; intros bef fuel Hs Hlen;
    (destruct fuel as [|f]; [simpl in Hlen; lia|]);
    cbn [subst]; cbn [scan] in Hs.
  - destruct (here fl r bef []); [discriminate | reflexivity].
  - destruct (here fl r bef (c :: rest)); [discriminate|].
    f_equal. apply IH; [exact Hs | simpl in Hlen; lia].
Qed.

Lemma clean_shape x :
  normal (Patterns.clean_description x) = true
  /\ starts_space (Patterns.clean_description x) = false
  /\ ends_space (Patterns.clean_description x) = false.
Proof.
  unfold Patterns.clean_description. split; [|split].
  - apply strip_normal. unfold sub. apply sub_spaces_normal. lia.
  - apply strip_starts.
  - apply strip_ends.
Qed.

(** A lazy [.*?] hands over to the continuation at the first place the
    continuation accepts. *)
Lemma star_lazy_dot fl (K : cont) tail cs : forall ws fuel bef,
  (forall a b, ws = a ++ b -> b <> [] ->
     K {| before := rev a ++ bef; after := b ++ tail; caps := cs |} = None) ->
  Forall (fun c => dot_ok fl c = true) ws ->
  length (ws ++ tail) < fuel ->
  K {| before := rev ws ++ bef; after := tail; caps := cs |} <> None ->
  star_loop (run fl Dot) false fuel
    {| before := bef; after := ws ++ tail; caps := cs |} K
  = K {| before := rev ws ++ bef; after := tail; caps := cs |}.
Proof.
  induction ws as [|c ws IH]; intros fuel bef Hmid Hdot Hlen Hend;
    (destruct fuel as [|f]; [simpl in Hlen; lia|]).
  - simpl in *. destruct (K _); [reflexivity | congruence].
  - pose proof (Hmid [] (c :: ws) eq_refl ltac:(discriminate)) as H0.
    inversion Hdot as [|? ? Hc Hws]; subst.
    cbn [star_loop rev app] in *. rewrite H0.
    cbn [run after app]. rewrite Hc. unfold step. cbn [after before caps].
    replace (length (ws ++ tail) <? length (c :: ws ++ tail)) with true
      by (symmetry; apply Nat.ltb_lt; simpl; lia).
    rewrite IH.
    + simpl. rewrite <- app_assoc. reflexivity.
    + intros a b E Hb. specialize (Hmid (c :: a) b).
      simpl in Hmid. rewrite <- app_assoc in Hmid. apply Hmid; [congruence | exact Hb].
    + exact Hws.
    + simpl in Hlen. lia.
    + simpl in Hend. rewrite <- app_assoc in Hend. exact Hend.
Qed.

Lemma here_PARAMS_other bef c rest :
  c <> paren_l -> here no_flags Patterns.PARAMS bef (c :: rest) = None.
Proof.
  intros H. unfold here, Patterns.PARAMS.
  change (cat [w "("; Group 1 Patterns.lazy_any; w ")"])
    with (Seq (ch paren_l) (Seq (Group 1 (Star false Dot)) (ch paren_r))).
  cbn [run ch after].
  destruct (Ascii.eqb paren_l c) eqn:E; [|reflexivity].
  apply Ascii.eqb_eq in E. congruence.
Qed.

Lemma close_paren_eq start bef aft cs :
  close_paren start {| before := bef; after := aft; caps := cs |} =
  match aft with
  | c :: rest =>
      if Ascii.eqb paren_r c
      then Some {| before := c :: bef; after := rest;
                   caps := (1, (start, length bef)) :: cs |}
      else None
  | [] => None
  end.
Proof. reflexivity. Qed.

Lemma here_PARAMS_open bef aft :
  here no_flags Patterns.PARAMS bef (paren_l :: aft) =
  star_loop (run no_flags Dot) false (S (length aft))
    {| before := paren_l :: bef; after := aft; caps := [] |}
    (close_paren (S (length bef))).
Proof. reflexivity. Qed.

Lemma here_PARAMS_blank bef ws post :
  Forall (fun c => is_space c = true /\ c <> nl) ws ->
  here no_flags Patterns.PARAMS bef (paren_l :: ws ++ paren_r :: post) =
  Some {| before := paren_r :: rev ws ++ paren_l :: bef;
          after := post;
          caps := [(1, (S (length bef), S (length bef) + length ws))] |}.
Proof.
  intros Hws. rewrite here_PARAMS_open, star_lazy_dot.
  - rewrite close_paren_eq, Ascii.eqb_refl.
    rewrite length_app, length_rev. cbn [length].
    replace (length ws + S (length bef)) with (S (length bef) + length ws) by lia.
    reflexivity.
  - intros a b E Hb. destruct b as [|x b]; [congruence|].
    cbn [app]. rewrite close_paren_eq.
    destruct (Ascii.eqb_spec paren_r x) as [Ex|Ex]; [|reflexivity].
    exfalso. subst ws x. apply Forall_app in Hws as [_ Hws].
    inversion Hws as [|? ? [Hx _] _]; subst. discriminate Hx.
  - eapply Forall_impl; [|exact Hws]. intros c [_ Hc]. unfold dot_ok. simpl.
    destruct (Ascii.eqb_spec c nl); [contradiction | reflexivity].
  - lia.
  - rewrite close_paren_eq, Ascii.eqb_refl. discriminate.
Qed.

Lemma scan_PARAMS_skip : forall pre bef aft,
  Forall (fun c => c <> paren_l) pre ->
  scan no_flags Patterns.PARAMS bef (pre ++ paren_l :: aft)
  = scan no_flags Patterns.PARAMS (rev pre ++ bef) (paren_l :: aft).
Proof.
  induction pre as [|c pre IH]; intros bef aft H; [reflexivity|].
  inversion H as [|? ? Hc Hpre]; subst.
  change ((c :: pre) ++ paren_l :: aft) with (c :: pre ++ paren_l :: aft).
  cbn [scan]. rewrite here_PARAMS_other by exact Hc.
  rewrite IH by exact Hpre. simpl. rewrite <- app_assoc. reflexivity.
Qed.

Lemma search_PARAMS_blank pre ws post :
  Forall (fun c => c <> paren_l) pre ->
  Forall (fun c => is_space c = true /\ c <> nl) ws ->
  search no_flags Patterns.PARAMS (pre ++ paren_l :: ws ++ paren_r :: post) =
  Some {| m_start := length pre;
          m_end := S (length pre) + length ws + 1;
          m_caps := [(1, (S (length pre), S (length pre) + length ws))] |}.
Proof.
  intros Hpre Hws. unfold search.
  rewrite scan_PARAMS_skip by exact Hpre.
  cbn [scan]. rewrite here_PARAMS_blank by exact Hws.
  unfold obj, pos. cbn [before caps].
  rewrite app_nil_r, length_rev. f_equal. f_equal.
  simpl. rewrite length_app, length_rev. simpl. rewrite length_rev. lia.
Qed.

Lemma extract_parameters_blank pre ws post :
  Forall (fun c => c <> paren_l) pre ->
  Forall (fun c => is_space c = true /\ c <> nl) ws ->
  Patterns.extract_parameters (pre ++ paren_l :: ws ++ paren_r :: post) = [].
Proof.
  intros Hpre Hws. unfold Patterns.extract_parameters.
  rewrite search_PARAMS_blank by assumption.
  unfold group. cbn [cap_lookup m_caps Nat.eqb].
  replace (slice _ _ _) with ws.
  - rewrite strip_blank; [reflexivity|].
    eapply Forall_impl; [|exact Hws]. intros c [Hc _]. exact Hc.
  - change (pre ++ paren_l :: ws ++ paren_r :: post)
      with (pre ++ [paren_l] ++ ws ++ paren_r :: post).
    rewrite app_assoc.
    replace (S (length pre)) with (length (pre ++ [paren_l]))
      by (rewrite length_app; simpl; lia).
    symmetry. apply slice_middle.
Qed.

(** Without [re.MULTILINE] a pattern that begins with [^] matches at the
    very start of its subject or nowhere. *)
Lemma scan_bol_none r : forall aft bef,
  bef <> [] -> scan no_flags (Seq Bol r) bef aft = None.
Proof.
  induction aft as [|c aft IH]; intros bef Hb;
    (destruct bef as [|b bef]; [congruence|]); cbn [scan].
  - reflexivity.
  - change (here no_flags (Seq Bol r) (b :: bef) (c :: aft)) with (@None mstate).
    apply IH. discriminate.
Qed.

Lemma search_bol_start r t m :
  search no_flags (Seq Bol r) t = Some m -> m_start m = 0.
Proof.
  unfold search. destruct t as [|c t]; cbn [scan].
  - destruct (here no_flags (Seq Bol r) [] []); [|discriminate].
    intros E. inversion E. reflexivity.
  - destruct (here no_flags (Seq Bol r) [] (c :: t)).
    + intros E. inversion E. reflexivity.
    + rewrite scan_bol_none by discriminate. discriminate.
Qed.

(** The end of a heading's section, as patterns.py computes it, is the
    heading's own start or the end of the text: the inner search runs
    without [re.MULTILINE], so it never sees a later heading. *)
Lemma heading_end_pos kind text m :
  Patterns.end_pos (Patterns.heading kind) text m = Patterns.start_pos m
  \/ Patterns.end_pos (Patterns.heading kind) text m = length text.
Proof.
  unfold Patterns.end_pos.
  destruct (search no_flags (Patterns.heading kind)
              (slice_from text (Patterns.start_pos m + 1))) as [nm|] eqn:E.
  - left. apply search_bol_start in E. rewrite E. reflexivity.
  - right. reflexivity.
Qed.

(** Cleaning keeps the characters that are not whitespace when there is
    nothing to remove. *)
Lemma ink_lstrip : forall t, ink (lstrip t) = ink t.
Proof.
  induction t as [|c t IH]; simpl; [reflexivity|].
  destruct (is_space c) eqn:Hc; simpl; [exact IH | rewrite Hc; reflexivity].
Qed.

Lemma ink_rev t : ink (rev t) = rev (ink t).
Proof. apply filter_rev. Qed.

Lemma ink_strip t : ink (strip t) = ink t.
Proof.
  unfold strip, rstrip.
  rewrite ink_rev, ink_lstrip, ink_rev, rev_involutive. apply ink_lstrip.
Qed.

Lemma eat_ink : forall aft bef, ink (snd (eat is_space bef aft)) = ink aft.
Proof.
  induction aft as [|c aft IH]; intros bef; simpl; [reflexivity|].
  destruct (is_space c) eqn:Hc; simpl; [apply IH | rewrite Hc; reflexivity].
Qed.

Lemma sub_spaces_ink : forall fuel bef aft,
  length aft < fuel ->
  ink (subst fuel no_flags Patterns.SPACES [" "%char] bef aft) = ink aft.
Proof.
  induction fuel as [|f IH]; intros bef aft Hlen; [lia|].
  cbn [subst]. rewrite here_SPACES.
  destruct aft as [|c rest]; [reflexivity|].
  simpl in Hlen.
  destruct (is_space c) eqn:Hc.
  - cbn [after before].
    pose proof (eat_length is_space rest (c :: bef)) as Hle.
    replace (length (snd (eat is_space (c :: bef) rest)) <? length (c :: rest))
      with true by (symmetry; apply Nat.ltb_lt; simpl; lia).
    cbn [app]. unfold ink at 1. cbn [filter].
    change (negb (is_space " ")) with false. cbv iota.
    fold (ink (subst f no_flags Patterns.SPACES [" "%char]
                 (fst (eat is_space (c :: bef) rest))
                 (snd (eat is_space (c :: bef) rest)))).
    rewrite IH by lia. rewrite eat_ink.
    unfold ink. simpl. rewrite Hc. reflexivity.
  - unfold ink. cbn [filter]. rewrite Hc. cbn [negb]. f_equal.
    apply IH. lia.
Qed.

Lemma clean_keeps_ink x :
  search no_flags Patterns.LABELS x = None ->
  search no_flags Patterns.PAGE_OPEN x = None ->
  ink (Patterns.clean_description x) = ink x.
Proof.
  intros H1 H2. unfold Patterns.clean_description, sub. unfold search in H1, H2.
  rewrite (@sub_no_match no_flags Patterns.LABELS [] x [] (S (length x)) H1) by lia.
  rewrite (@sub_no_match no_flags Patterns.PAGE_OPEN [] x [] (S (length x)) H2) by lia.
  rewrite ink_strip. change (lit " ") with [" "%char].
  apply sub_spaces_ink. lia.
Qed.

(* ================================================================== *)
(** ** The claims *)
(* ================================================================== *)

(** C1.  The boundary scan of patterns.py on two namespace headings with
    a body each: both headings are found, but neither span ends where the
    next heading starts.  The first heading starts at 0 and the second at
    19; both spans run to the end of the text (38), so they overlap
    instead of being [(0, 19)] and [(19, 38)]. *)
Theorem namespace_spans_run_to_end_of_text :
  heading_spans Patterns.NAMESPACE_START Fixture.two_namespaces
  = [(0, 38); (19, 38)].
Proof. vm_compute. reflexivity. Qed.

(** C2.  A class heading that stands after the second namespace heading
    is listed under the first namespace, by [ContentExtractor] (where it
    gets the suffix) and by [ApexDocParser] alike. *)
Theorem later_class_listed_under_earlier_namespace :
  map (fun n => (Patterns.namespace_name n,
                 map Patterns.class_name (Patterns.namespace_subsections n)))
      (Patterns.extract_namespaces Fixture.class_after_second)
  = [(lit "Foo", [lit "Baz Class"]); (lit "Bar", [lit "Baz Class"])]
  /\ map (fun n => (ApexParser.namespace_name n,
                    map ApexParser.class_name (ApexParser.namespace_classes n)))
         (ApexParser.extract_namespaces Fixture.class_after_second)
     = [(lit "Foo", [lit "Baz"]); (lit "Bar", [lit "Baz"])].
Proof. split; vm_compute; reflexivity. Qed.

(** C3.  Commas inside angle brackets split the parameter list.
    simpleChunker.py does not recognise the signature of the
    specification at all (its return type holds a comma) and keeps it as a
    paragraph; on [put(Map<Id, String> m, Integer i)] it yields three
    parameters, and so does [extract_parameters] of patterns.py, whose
    [extract_methods] finds no method in the signature of the
    specification either. *)
Theorem nested_comma_splits_parameters :
  SimpleChunker.content_item_of Fixture.spec_signature
  = SimpleChunker.paragraph_item Fixture.spec_signature
  /\ SimpleChunker.content_item_of Fixture.map_signature
     = SimpleChunker.method_item (lit "put") Fixture.map_signature
         [ {| SimpleChunker.param_type := [];
              SimpleChunker.param_name := lit "Map<Id" |};
           {| SimpleChunker.param_type := lit "String>";
              SimpleChunker.param_name := lit "m" |};
           {| SimpleChunker.param_type := lit "Integer";
              SimpleChunker.param_name := lit "i" |} ]
         (lit "void")
  /\ Patterns.extract_parameters Fixture.map_signature
     = [lit "Map<Id"; lit "String> m"; lit "Integer i"]
  /\ Patterns.extract_methods Fixture.spec_signature = [].
Proof. repeat split; vm_compute; reflexivity. Qed.

(** C4.  On a span of two pages, each marker on a line of its own, the
    page range ends at the first closing marker (page 3), not at the last
    one (page 4).  The two examples of the specification come out as it
    says. *)
Theorem page_range_end_is_first_close_marker :
  Patterns.find_page_range Fixture.two_pages
  = {| Patterns.pr_start := 3; Patterns.pr_end := 3 |}
  /\ Patterns.find_page_range
       (lit "[PAGE_3]...[/PAGE_3]...[PAGE_3]...[/PAGE_3]")
     = {| Patterns.pr_start := 3; Patterns.pr_end := 3 |}
  /\ Patterns.find_page_range (lit "no markers here")
     = {| Patterns.pr_start := 0; Patterns.pr_end := 0 |}.
Proof. repeat split; vm_compute; reflexivity. Qed.

(** C5, as stated, fails: after the heading [Foo Namespace] (which ends at
    offset 13) the description of apex_parser.py runs past the line
    [SEE ALSO:] up to the blank line, where the specification's wording
    stops at the keyword. *)
Lemma description_runs_past_section_marker :
  ApexParser.extract_section_description Fixture.described 13
  = lit "Intro text\nSEE ALSO:\nother"
  /\ Spec.description_by_spec Fixture.described 13 = lit "Intro text".
Proof. split; vm_compute; reflexivity. Qed.

(** C5, amended.  The description [extract_section_description] returns
    for the offset at which a heading match ends is the trimmed text up to
    the first paragraph break at or after that offset, and the trimmed
    rest of the text when no paragraph break is left.  [body] is any text
    without a paragraph break (in the first case not even one completed by
    the first newline of the break that ends it); keywords in it do not
    matter. *)
Theorem description_ends_at_paragraph_break (pre body rest : str) :
  (contains break (body ++ [nl]) = false ->
   ApexParser.extract_section_description
     (pre ++ body ++ break ++ rest) (length pre) = strip body)
  /\ (contains break body = false ->
      ApexParser.extract_section_description (pre ++ body) (length pre)
      = strip body).
Proof.
  unfold ApexParser.extract_section_description, find.
  change (lit "\n\n") with break.
  split; intros H.
  - replace (length pre <=? length (pre ++ body ++ break ++ rest)) with true
      by (symmetry; apply Nat.leb_le; rewrite length_app; lia).
    rewrite skipn_prefix, find_at_break by exact H.
    rewrite slice_middle. reflexivity.
  - replace (length pre <=? length (pre ++ body)) with true
      by (symmetry; apply Nat.leb_le; rewrite length_app; lia).
    rewrite skipn_prefix, find_at_no_break by exact H.
    unfold slice_from. rewrite skipn_prefix. reflexivity.
Qed.

(** The amended C5 at the heading [Foo Namespace] of [Fixture.described]. *)
Lemma description_ends_at_paragraph_break_witness :
  ApexParser.extract_section_description
    (lit "Foo Namespace" ++ lit "\nIntro text\nSEE ALSO:\nother"
     ++ break ++ lit "rest")
    (length (lit "Foo Namespace"))
  = strip (lit "\nIntro text\nSEE ALSO:\nother").
Proof.
  apply (proj1 (@description_ends_at_paragraph_break
                  (lit "Foo Namespace")
                  (lit "\nIntro text\nSEE ALSO:\nother")
                  (lit "rest"))).
  vm_compute. reflexivity.
Defined.

(** C6, as stated, fails: [Usage] (one of [SECTION_MARKERS]) survives
    cleaning, a closing page marker survives, and removing a label or an
    opening page marker can leave a new one behind. *)
Lemma cleaned_text_keeps_markers :
  existsb (fun marker =>
             contains marker
               (Patterns.clean_description (lit "See Usage below")))
          Patterns.SECTION_MARKERS = true
  /\ Patterns.clean_description Fixture.nested_label = lit "SEE ALSO:"
  /\ Patterns.clean_description (lit "[PAGE_[PAGE_1]1] [/PAGE_2]")
     = lit "[PAGE_1] [/PAGE_2]".
Proof. repeat split; vm_compute; reflexivity. Qed.

(** C7, as stated, fails: cleaning [SEE SEE ALSO:ALSO:] leaves
    [SEE ALSO:], and cleaning that leaves nothing. *)
Lemma clean_twice_differs :
  Patterns.clean_description Fixture.nested_label = lit "SEE ALSO:"
  /\ Patterns.clean_description
       (Patterns.clean_description Fixture.nested_label) = [].
Proof. split; vm_compute; reflexivity. Qed.

(** C7, amended.  Cleaning is idempotent on every input whose cleaned
    text holds no match of the two patterns the cleaner removes, the
    labels [IN THIS SECTION:|SEE ALSO:] and the opening page marker
    [\[PAGE_\d+\]]. *)
Theorem clean_idempotent_without_markers (x : str) :
  search no_flags Patterns.LABELS (Patterns.clean_description x) = None ->
  search no_flags Patterns.PAGE_OPEN (Patterns.clean_description x) = None ->
  Patterns.clean_description (Patterns.clean_description x)
  = Patterns.clean_description x.
Proof.
  intros H1 H2. destruct (clean_shape x) as (Hn & Hs & He).
  set (y := Patterns.clean_description x) in *.
  unfold Patterns.clean_description at 1. unfold sub.
  unfold search in H1, H2.
  rewrite (@sub_no_match no_flags Patterns.LABELS [] y [] (S (length y)) H1)
    by lia.
  rewrite (@sub_no_match no_flags Patterns.PAGE_OPEN [] y [] (S (length y)) H2)
    by lia.
  change (lit " ") with [" "%char].
  rewrite sub_spaces_fixed by (auto; lia).
  apply strip_fixed; assumption.
Qed.

(** The amended C7 on a text whose label and page marker are removed. *)
Lemma clean_idempotent_without_markers_witness :
  Patterns.clean_description
    (Patterns.clean_description (lit "  The  Usage\nSEE ALSO: [PAGE_7] notes "))
  = Patterns.clean_description (lit "  The  Usage\nSEE ALSO: [PAGE_7] notes ").
Proof.
  apply (@clean_idempotent_without_markers
           (lit "  The  Usage\nSEE ALSO: [PAGE_7] notes "));
    vm_compute; reflexivity.
Defined.

(** C8, as stated, fails: on the empty text [parse_document] returns a
    document with a title and a description, both non-empty. *)
Lemma empty_text_document_has_title :
  ApexParser.title (ApexParser.parse_document [])
  = lit "Apex Reference Guide"
  /\ truthy (ApexParser.title (ApexParser.parse_document [])) = true
  /\ truthy (ApexParser.description (ApexParser.parse_document [])) = true.
Proof. repeat split; vm_compute; reflexivity. Qed.

(** C8, amended.  For an unreadable file, and for a file whose pages
    give no text, [process_pdf] returns the empty dictionary, which has
    no title, description or collection at all; [parse_document] on the
    empty text returns its fixed title and description with an empty list
    of namespaces.  Neither raises. *)
Theorem empty_input_results :
  Processor.process_pdf Processor.Unreadable = Processor.empty_dict
  /\ (forall texts,
        Processor.all_text 0 texts = [] ->
        Processor.process_pdf (Processor.Pages texts) = Processor.empty_dict)
  /\ ApexParser.parse_document []
     = {| ApexParser.title := lit "Apex Reference Guide";
          ApexParser.description :=
            lit "Extracted Apex content organized by namespaces.";
          ApexParser.namespaces := [] |}.
Proof.
  split; [reflexivity | split].
  - intros texts H. unfold Processor.process_pdf. simpl. rewrite H. reflexivity.
  - vm_compute. reflexivity.
Qed.

(** The amended C8 on a file of two pages without text. *)
Lemma empty_input_results_witness :
  Processor.process_pdf (Processor.Pages [[]; []]) = Processor.empty_dict.
Proof.
  apply (proj1 (proj2 empty_input_results) [[]; []]). reflexivity.
Defined.

(** C9, as stated, fails: between the first pair of parentheses of
    [f(\n) g(x)] there is whitespace only, a newline, and the parameter
    list is not empty.  The pattern is searched without [re.DOTALL], its
    dot does not pass the newline, and the search goes on to [(x)]. *)
Lemma newline_between_parentheses_is_passed_over :
  strip (lit "\n") = []
  /\ Patterns.extract_parameters (lit "f(\n) g(x)") = [lit "x"].
Proof. split; vm_compute; reflexivity. Qed.

(** C9, amended.  A signature written [pre ( ws ) post], with no opening
    parenthesis in [pre] and [ws] empty or made of whitespace other than
    the newline, has the empty list of parameters, not a list that holds
    an empty parameter. *)
Theorem blank_parameters_on_one_line_are_none (pre ws post : str) :
  Forall (fun c => c <> paren_l) pre ->
  Forall (fun c => is_space c = true /\ c <> nl) ws ->
  Patterns.extract_parameters (pre ++ paren_l :: ws ++ paren_r :: post) = [].
Proof.
  intros Hpre Hws. apply extract_parameters_blank; assumption.
Qed.

(** The amended C9 on a signature with blanks and a tab between its
    parentheses. *)
Lemma blank_parameters_on_one_line_are_none_witness :
  Patterns.extract_parameters (lit "public void run(  \t) {") = [].
Proof.
  apply (@blank_parameters_on_one_line_are_none
           (lit "public void run") (lit "  \t") (lit " {")).
  - repeat constructor; discriminate.
  - repeat constructor; discriminate.
Defined.

(** C10.  The names of the extracted entities, in document order: a class
    is named by the identifier its heading captures followed by [ Class],
    a statement by the identifier followed by [ Statement], a namespace by
    the bare identifier. *)
Theorem entity_names (text : str) :
  map Patterns.class_name (Patterns.extract_classes text)
  = map (fun m => group text m 1 ++ lit " Class")
        (finditer multiline Patterns.CLASS_START text)
  /\ map Patterns.operation_name
         (Patterns.statements (Patterns.extract_dml_operations text))
     = map (fun m => group text m 1 ++ lit " Statement")
           (finditer multiline Patterns.DML_start text)
  /\ map Patterns.namespace_name (Patterns.extract_namespaces text)
     = map (fun m => group text m 1)
           (finditer multiline Patterns.NAMESPACE_START text).
Proof.
  unfold Patterns.extract_classes, Patterns.extract_dml_operations,
    Patterns.extract_namespaces.
  cbn [Patterns.statements].
  rewrite !map_map. repeat split.
Qed.

(* ================================================================== *)
(** ** Further properties of the code *)
(* ================================================================== *)

(* ------------------------------------------------------------------ *)
(** *** The matcher only moves forward *)
(* ------------------------------------------------------------------ *)

Lemma advance_refl st : advance st st.
Proof. exists []. split; reflexivity. Qed.

Lemma advance_trans a b c : advance a b -> advance b c -> advance a c.
Proof.
  intros [w1 [H1 H2]] [w2 [H3 H4]]. exists (w1 ++ w2). split.
  - rewrite H1, H3, app_assoc. reflexivity.
  - rewrite H4, H2, rev_app_distr, app_assoc. reflexivity.
Qed.

Lemma advance_step st c rest : after st = c :: rest -> advance st (step st c rest).
Proof. intros H. exists [c]. split; [exact H | reflexivity]. Qed.

Lemma advance_close st st' n s : advance st st' -> advance st (close_group n s st').
Proof. intros [w H]. exists w. exact H. Qed.

Lemma advance_length st st' :
  advance st st' -> length (before st) <= length (before st').
Proof. intros [w [_ H]]. rewrite H, length_app. lia. Qed.

Lemma advance_text st st' :
  advance st st' -> rev (before st') ++ after st' = rev (before st) ++ after st.
Proof.
  intros [w [H1 H2]]. rewrite H1, H2, rev_app_distr, rev_involutive, app_assoc.
  reflexivity.
Qed.

Lemma star_forwards body greedy : forwards body ->
  forall fuel, forwards (fun st k => star_loop body greedy fuel st k).
Proof.
  intros Hb. induction fuel as [|f IH]; intros st k res H.
  - exists st. split; [apply advance_refl | exact H].
  - cbn [star_loop] in H.
    assert (Hagain : forall r, body st (fun st' =>
              if length (after st') <? length (after st)
              then star_loop body greedy f st' k else None) = Some r ->
              exists st', advance st st' /\ k st' = Some r).
    { intros r Hr. apply Hb in Hr as [st1 [A1 Hr]].
      destruct (length (after st1) <? length (after st)); [|discriminate].
      apply IH in Hr as [st2 [A2 Hr]].
      exists st2. split; [eapply advance_trans; eassumption | exact Hr]. }
    destruct greedy.
    + destruct (body st _) as [r|] eqn:E.
      * inversion H; subst. apply Hagain. reflexivity.
      * exists st. split; [apply advance_refl | exact H].
    + destruct (k st) as [r|] eqn:E.
      * inversion H; subst. exists st. split; [apply advance_refl | exact E].
      * apply Hagain, H.
Qed.

Lemma run_forwards fl : forall r, forwards (run fl r).
Proof.
  induction r as [|p| |r1 IH1 r2 IH2|r1 IH1 r2 IH2|g r1 IH1|n r1 IH1| | |
                  |r1 IH1|r1 IH1|s]; intros st k res H; cbn [run] in H.
  - exists st. split; [apply advance_refl | exact H].
  - destruct (after st) as [|c rest] eqn:E; [discriminate|].
    destruct (p c); [|discriminate].
    exists (step st c rest). split; [apply advance_step, E | exact H].
  - destruct (after st) as [|c rest] eqn:E; [discriminate|].
    destruct (dot_ok fl c); [|discriminate].
    exists (step st c rest). split; [apply advance_step, E | exact H].
  - apply IH1 in H as [st1 [A1 H]]. apply IH2 in H as [st2 [A2 H]].
    exists st2. split; [eapply advance_trans; eassumption | exact H].
  - destruct (run fl r1 st k) as [r|] eqn:E.
    + inversion H; subst. apply IH1, E.
    + apply IH2, H.
  - apply (star_forwards g IH1) in H. exact H.
  - apply IH1 in H as [st1 [A1 H]].
    exists (close_group n (pos st) st1). split; [apply advance_close, A1 | exact H].
  - destruct (at_bol fl st); [|discriminate].
    exists st. split; [apply advance_refl | exact H].
  - destruct (at_eol fl st); [|discriminate].
    exists st. split; [apply advance_refl | exact H].
  - destruct (at_end st); [|discriminate].
    exists st. split; [apply advance_refl | exact H].
  - destruct (run fl r1 st Some); [|discriminate].
    exists st. split; [apply advance_refl | exact H].
  - destruct (run fl r1 st Some); [discriminate|].
    exists st. split; [apply advance_refl | exact H].
  - destruct (starts_with (rev s) (before st)); [|discriminate].
    exists st. split; [apply advance_refl | exact H].
Qed.

(** A match lies in the text: it ends at or after its start, and the
    zipper it leaves spells the same text. *)
Lemma here_advance fl r bef aft st :
  here fl r bef aft = Some st ->
  advance {| before := bef; after := aft; caps := [] |} st.
Proof.
  unfold here. intros H. apply run_forwards in H as [st' [A H]].
  inversion H; subst. exact A.
Qed.

Lemma iter_In fl r : forall fuel bef aft m,
  In m (iter fuel fl r bef aft) ->
  exists bef' aft' st,
    rev bef' ++ aft' = rev bef ++ aft
    /\ length bef <= length bef'
    /\ here fl r bef' aft' = Some st
    /\ m = obj (length bef') st.
Proof.
  induction fuel as [|f IH]; intros bef aft m H; [contradiction|].
  cbn [iter] in H.
  assert (Hnext : forall c aft', aft = c :: aft' ->
            In m (iter f fl r (c :: bef) aft') ->
            exists bef' aft' st,
              rev bef' ++ aft' = rev bef ++ aft
              /\ length bef <= length bef'
              /\ here fl r bef' aft' = Some st
              /\ m = obj (length bef') st).
  { intros c aft' -> Hin. apply IH in Hin as (b & a & st & Ht & Hl & Hh & Hm).
    exists b, a, st. repeat split; try assumption.
    - rewrite Ht. simpl. rewrite <- app_assoc. reflexivity.
    - simpl in Hl. lia. }
  destruct (here fl r bef aft) as [st|] eqn:E.
  - destruct H as [H|H].
    + exists bef, aft, st. repeat split; auto.
    + pose proof E as A. apply here_advance in A.
      destruct (length (after st) <? length aft).
      * apply IH in H as (b & a & st' & Ht & Hl & Hh & Hm).
        exists b, a, st'. repeat split; try assumption.
        -- rewrite Ht. apply (advance_text A).
        -- apply advance_length in A. simpl in A. lia.
      * destruct aft as [|c aft']; [contradiction|].
        eapply Hnext; [reflexivity | exact H].
  - destruct aft as [|c aft']; [contradiction|].
    eapply Hnext; [reflexivity | exact H].
Qed.

(** Without [re.MULTILINE], [^...] matches nowhere once the scan has
    left the start of the text. *)
Lemma iter_bol_nil r : forall fuel aft bef,
  bef <> [] -> iter fuel no_flags (Seq Bol r) bef aft = [].
Proof.
  induction fuel as [|f IH]; intros aft bef Hb; [reflexivity|].
  destruct bef as [|b bef]; [congruence|]. cbn [iter].
  change (here no_flags (Seq Bol r) (b :: bef) aft) with (@None mstate).
  destruct aft as [|c aft']; [reflexivity|]. apply IH. discriminate.
Qed.

(* ------------------------------------------------------------------ *)
(** *** patterns.py: the content of a heading *)
(* ------------------------------------------------------------------ *)

Lemma bol_end_pos r text m :
  Patterns.end_pos (Seq Bol r) text m = Patterns.start_pos m
  \/ Patterns.end_pos (Seq Bol r) text m = length text.
Proof.
  unfold Patterns.end_pos.
  destruct (search no_flags (Seq Bol r)
              (slice_from text (Patterns.start_pos m + 1))) as [nm|] eqn:E.
  - left. apply search_bol_start in E. rewrite E. reflexivity.
  - right. reflexivity.
Qed.

Lemma bol_section r text m :
  Patterns.section (Seq Bol r) text m = slice_from text (Patterns.start_pos m)
  \/ Patterns.section (Seq Bol r) text m = [].
Proof.
  unfold Patterns.section, slice, slice_from.
  destruct (bol_end_pos r text m) as [E|E]; rewrite E.
  - right. rewrite Nat.sub_diag. reflexivity.
  - left. apply firstn_all2. rewrite length_skipn. lia.
Qed.

(** X1.  The content cut out for a heading of [ContentExtractor]
    (namespace, class, method or DML statement) is, for every text and
    every match, either the whole rest of the text from the start of the
    heading, or empty: the search for the next heading runs without
    [re.MULTILINE] on [text[start_pos + 1:]], so it can only succeed at
    the first character of that slice, where it gives
    [end_pos = start_pos]. *)
Theorem section_is_rest_of_text_or_empty (text : str) (m : match_obj) :
  (Patterns.section Patterns.NAMESPACE_START text m
     = slice_from text (Patterns.start_pos m)
   \/ Patterns.section Patterns.NAMESPACE_START text m = [])
  /\ (Patterns.section Patterns.CLASS_START text m
        = slice_from text (Patterns.start_pos m)
      \/ Patterns.section Patterns.CLASS_START text m = [])
  /\ (Patterns.section Patterns.METHOD_START text m
        = slice_from text (Patterns.start_pos m)
      \/ Patterns.section Patterns.METHOD_START text m = [])
  /\ (Patterns.section Patterns.DML_start text m
        = slice_from text (Patterns.start_pos m)
      \/ Patterns.section Patterns.DML_start text m = []).
Proof. repeat split; apply bol_section. Qed.

(* ------------------------------------------------------------------ *)
(** *** apex_parser.py: methods *)
(* ------------------------------------------------------------------ *)

Lemma here_class_pattern_moves fl bef aft st :
  here fl ApexParser.class_pattern bef aft = Some st -> 0 < pos st.
Proof.
  unfold here, ApexParser.class_pattern. cbn [cat]. unfold Plus at 1.
  unfold Patterns.wd at 1.
  cbn [run]. destruct (at_bol fl _); [|discriminate].
  cbn [after]. destruct aft as [|c rest]; [discriminate|].
  destruct (is_word c); [|discriminate].
  intros H.
  apply (star_forwards true (run_forwards fl Patterns.wd)) in H as [st1 [A1 H]].
  apply run_forwards in H as [st2 [A2 H]].
  apply run_forwards in H as [st3 [A3 H]]. inversion H; subst st3.
  apply advance_length in A1. apply advance_length in A2.
  apply advance_length in A3.
  unfold pos. cbn [before close_group step length] in *. lia.
Qed.

Lemma finditer_from_bol_nil r text start :
  0 < start ->
  finditer_from no_flags (Seq Bol r) text start = [].
Proof.
  intros H. unfold finditer_from.
  destruct (start <=? length text) eqn:E; [|reflexivity].
  apply Nat.leb_le in E. apply iter_bol_nil.
  intros Hn. apply (f_equal (@length ascii)) in Hn.
  rewrite length_rev, length_firstn in Hn. simpl in Hn. lia.
Qed.

Lemma classes_loop_Forall (P : ApexParser.class_def -> Prop) text :
  forall cms,
  (forall cm, In cm cms ->
     P {| ApexParser.class_name := group text cm 1;
          ApexParser.class_description :=
            ApexParser.extract_section_description text (m_end cm);
          ApexParser.class_methods := ApexParser.methods_of text cm |}) ->
  Forall P (ApexParser.classes_loop text cms).
Proof.
  induction cms as [|cm cms IH]; intros H; [constructor|].
  cbn [ApexParser.classes_loop]. constructor.
  - apply H. left. reflexivity.
  - destruct (search_from multiline ApexParser.namespace_pattern text (m_end cm));
      [constructor|].
    apply IH. intros cm' Hin. apply H. right. exact Hin.
Qed.

(** X2.  [ApexDocParser.extract_namespaces] never finds a method:
    for every text, every class of every namespace has an empty list of
    methods.  [method_pattern] is compiled without [re.MULTILINE] and is
    scanned from [class_match.end()], which is past the start of the
    text, where [^] no longer matches. *)
Theorem apex_parser_finds_no_method (text : str) :
  Forall (fun n =>
            Forall (fun c => ApexParser.class_methods c = [])
                   (ApexParser.namespace_classes n))
         (ApexParser.extract_namespaces text).
Proof.
  unfold ApexParser.extract_namespaces. apply Forall_map, Forall_forall.
  intros m _. cbn [ApexParser.namespace_classes].
  apply classes_loop_Forall. intros cm Hin. cbn [ApexParser.class_methods].
  unfold ApexParser.methods_of.
  unfold finditer_from in Hin.
  destruct (m_end m <=? length text); [|contradiction].
  apply iter_In in Hin as (b & a & st & _ & _ & Hh & ->).
  apply here_class_pattern_moves in Hh.
  unfold ApexParser.method_pattern. cbn [cat].
  rewrite finditer_from_bol_nil; [reflexivity | exact Hh].
Qed.

(* ------------------------------------------------------------------ *)
(** *** Splitting and stripping *)
(* ------------------------------------------------------------------ *)

Lemma has_app c a b : has c (a ++ b) = has c a || has c b.
Proof. apply existsb_app. Qed.

Lemma has_rev c t : has c (rev t) = has c t.
Proof.
  induction t as [|a t IH]; [reflexivity|].
  cbn [rev]. rewrite has_app, IH. simpl. rewrite orb_false_r. apply orb_comm.
Qed.

Lemma has_lstrip c t : has c t = false -> has c (lstrip t) = false.
Proof.
  intros H. destruct (lstrip_suffix t) as [a Ha]. rewrite Ha in H.
  rewrite has_app in H. apply orb_false_iff in H. apply H.
Qed.

Lemma has_strip c t : has c t = false -> has c (strip t) = false.
Proof.
  intros H. unfold strip, rstrip. rewrite has_rev. apply has_lstrip.
  rewrite has_rev. apply has_lstrip, H.
Qed.

Lemma strip_trimmed t : trimmed (strip t) = true.
Proof. unfold trimmed. rewrite strip_starts, strip_ends. reflexivity. Qed.

Lemma split_cons sep c t :
  Py.split sep (c :: t) =
  if Ascii.eqb c sep then [] :: Py.split sep t
  else match Py.split sep t with
       | piece :: rest => (c :: piece) :: rest
       | [] => [[c]]
       end.
Proof. reflexivity. Qed.

Lemma split_not_nil sep : forall t, Py.split sep t <> [].
Proof.
  induction t as [|c t IH]; [discriminate|]. rewrite split_cons.
  destruct (Ascii.eqb c sep); [discriminate|].
  destruct (Py.split sep t); discriminate.
Qed.

Lemma split_pieces sep : forall t,
  Forall (fun p => has sep p = false) (Py.split sep t).
Proof.
  induction t as [|c t IH]; [repeat constructor|]. rewrite split_cons.
  destruct (Ascii.eqb c sep) eqn:E.
  - constructor; [reflexivity | exact IH].
  - destruct (Py.split sep t) as [|piece rest].
    + repeat constructor. simpl. rewrite Ascii.eqb_sym, E. reflexivity.
    + inversion IH; subst. constructor; [|assumption].
      simpl. rewrite Ascii.eqb_sym, E. assumption.
Qed.

Lemma join_split sep : forall t, join [sep] (Py.split sep t) = t.
Proof.
  induction t as [|c t IH]; [reflexivity|]. rewrite split_cons.
  pose proof (split_not_nil sep t) as Hn.
  destruct (Py.split sep t) as [|p rest]; [congruence|].
  destruct (Ascii.eqb_spec c sep) as [->|E].
  - change (join [sep] ([] :: p :: rest)) with (sep :: join [sep] (p :: rest)).
    rewrite IH. reflexivity.
  - rewrite <- IH. destruct rest; reflexivity.
Qed.

Lemma split_without sep : forall t, has sep t = false -> Py.split sep t = [t].
Proof.
  induction t as [|c t IH]; [reflexivity|]. intros H. simpl in H.
  apply orb_false_iff in H as [Hc Ht]. rewrite split_cons.
  rewrite Ascii.eqb_sym, Hc, (IH Ht). reflexivity.
Qed.

Lemma split_with sep : forall t, has sep t = true -> 2 <= length (Py.split sep t).
Proof.
  induction t as [|c t IH]; [discriminate|]. intros H. rewrite split_cons.
  destruct (Ascii.eqb c sep) eqn:E.
  - pose proof (split_not_nil sep t). destruct (Py.split sep t); [congruence|].
    simpl. lia.
  - simpl in H. rewrite Ascii.eqb_sym, E in H. simpl in H. specialize (IH H).
    destruct (Py.split sep t); simpl in *; lia.
Qed.

Lemma join_snoc sep : forall l x,
  l <> [] -> join sep (l ++ [x]) = join sep l ++ sep ++ x.
Proof.
  induction l as [|p l IH]; intros x Hl; [congruence|].
  destruct l as [|q l]; [reflexivity|].
  change (join sep ((p :: q :: l) ++ [x]))
    with (p ++ sep ++ join sep ((q :: l) ++ [x])).
  rewrite IH by discriminate.
  change (join sep (p :: q :: l)) with (p ++ sep ++ join sep (q :: l)).
  rewrite <- !app_assoc. reflexivity.
Qed.

(** X3.  A parameter of simpleChunker.py is cut at the last blank of
    its stripped text: the name holds no blank; when the stripped text
    holds a blank it is the type, one blank, and the name, and otherwise
    the type is empty and the name is the whole stripped text. *)
Theorem parameter_is_cut_at_last_blank (param : str) :
  has " " (SimpleChunker.param_name (SimpleChunker.parameter_of param)) = false
  /\ (if has " " (strip param)
      then SimpleChunker.param_type (SimpleChunker.parameter_of param)
           ++ " "%char
           :: SimpleChunker.param_name (SimpleChunker.parameter_of param)
           = strip param
      else SimpleChunker.param_type (SimpleChunker.parameter_of param) = []
           /\ SimpleChunker.param_name (SimpleChunker.parameter_of param)
              = strip param).
Proof.
  unfold SimpleChunker.parameter_of.
  cbn [SimpleChunker.param_name SimpleChunker.param_type].
  set (p := strip param). set (parts := Py.split " " p).
  assert (Hparts : parts = removelast parts ++ [last parts []])
    by (apply app_removelast_last, split_not_nil).
  split.
  - pose proof (split_pieces " " p) as Hf. fold parts in Hf.
    rewrite Hparts in Hf. apply Forall_app in Hf as [_ Hf].
    inversion Hf; assumption.
  - destruct (has " " p) eqn:Hsp.
    + assert (Hl : removelast parts <> []).
      { intros E. pose proof (split_with " " p Hsp) as Hlen. fold parts in Hlen.
        rewrite Hparts, E in Hlen. simpl in Hlen. lia. }
      pose proof (join_split " " p) as Hj. fold parts in Hj.
      rewrite Hparts, (join_snoc _ _ Hl) in Hj.
      change (lit " ") with [" "%char]. exact Hj.
    + unfold parts. rewrite (split_without _ _ Hsp). split; reflexivity.
Qed.

(** X4.  Every parameter returned by
    [ContentExtractor.extract_parameters] has no leading or trailing
    whitespace and contains no comma, whatever the signature. *)
Theorem parameters_are_trimmed_and_comma_free (signature : str) :
  Forall (fun p => trimmed p = true /\ has "," p = false)
         (Patterns.extract_parameters signature).
Proof.
  unfold Patterns.extract_parameters.
  destruct (search no_flags Patterns.PARAMS signature) as [m|]; [|constructor].
  destruct (truthy _); [|constructor].
  apply Forall_map. eapply Forall_impl; [|apply split_pieces].
  intros p Hp. split; [apply strip_trimmed | apply has_strip, Hp].
Qed.

(** X5.  Every syntax line of every DML statement returned by
    [extract_dml_operations] is non-empty, has no leading or trailing
    whitespace and contains no newline. *)
Theorem syntax_lines_are_plain (text : str) :
  Forall (fun o =>
            Forall (fun s => truthy s = true /\ trimmed s = true
                             /\ has nl s = false)
                   (Patterns.operation_syntax o))
         (Patterns.statements (Patterns.extract_dml_operations text)).
Proof.
  unfold Patterns.extract_dml_operations. cbn [Patterns.statements].
  apply Forall_map, Forall_forall. intros m _. cbn [Patterns.operation_syntax].
  destruct (search dotall Patterns.DML_syntax _) as [sm|]; [|constructor].
  apply Forall_map, Forall_forall. intros s Hs.
  apply filter_In in Hs as [Hin Ht].
  split; [exact Ht | split; [apply strip_trimmed|]].
  apply has_strip.
  pose proof (split_pieces nl (group (Patterns.section Patterns.DML_start text m) sm 1)) as Hf.
  rewrite Forall_forall in Hf. apply Hf, Hin.
Qed.

(** X6.  The signature of every method returned by
    [ContentExtractor.extract_methods] is a single line: it contains no
    newline and has no leading or trailing whitespace. *)
Theorem method_signature_is_one_trimmed_line (text : str) :
  Forall (fun m => trimmed (Patterns.method_signature m) = true
                   /\ has nl (Patterns.method_signature m) = false)
         (Patterns.extract_methods text).
Proof.
  unfold Patterns.extract_methods. apply Forall_map, Forall_forall.
  intros m _. cbn [Patterns.method_signature].
  split; [apply strip_trimmed | apply has_strip].
  pose proof (split_pieces nl (Patterns.section Patterns.METHOD_START text m)) as Hf.
  destruct (Py.split nl _) as [|p rest]; [reflexivity|].
  inversion Hf; assumption.
Qed.

(* ------------------------------------------------------------------ *)
(** *** apex_parser.py: descriptions *)
(* ------------------------------------------------------------------ *)

Lemma find_at_cons p c t i :
  find_at p (c :: t) i =
  if starts_with p (c :: t) then Some i else find_at p t (S i).
Proof. reflexivity. Qed.

Lemma contains_cons p c t :
  contains p (c :: t) = starts_with p (c :: t) || contains p t.
Proof.
  unfold contains. rewrite find_at_cons.
  destruct (starts_with p (c :: t)); [reflexivity|]. simpl.
  destruct (find_at p t 1) eqn:E.
  - destruct (find_at p t 0) eqn:E0; [reflexivity|].
    rewrite (@find_at_none _ _ 0 1 E0) in E. discriminate.
  - rewrite (@find_at_none _ _ 1 0 E). reflexivity.
Qed.

Lemma starts_with_app p : forall t b,
  starts_with p t = true -> starts_with p (t ++ b) = true.
Proof.
  induction p as [|a p IH]; intros t b H; [reflexivity|].
  destruct t as [|c t]; [discriminate|]. simpl in *.
  apply andb_true_iff in H as [H1 H2]. rewrite H1, (IH _ _ H2). reflexivity.
Qed.

(** A text holds [p] when a longer text around it does not miss it. *)
Lemma contains_suffix p : forall a t,
  contains p (a ++ t) = false -> contains p t = false.
Proof.
  induction a as [|c a IH]; intros t H; [exact H|].
  change ((c :: a) ++ t) with (c :: a ++ t) in H. rewrite contains_cons in H.
  apply orb_false_iff in H as [_ H]. apply IH, H.
Qed.

Lemma contains_nil p b : contains p b = false -> contains p [] = false.
Proof.
  destruct p as [|a p]; [|reflexivity].
  destruct b; discriminate.
Qed.

Lemma contains_prefix p : forall t b,
  contains p (t ++ b) = false -> contains p t = false.
Proof.
  induction t as [|c t IH]; intros b H; [eapply contains_nil, H|].
  change ((c :: t) ++ b) with (c :: t ++ b) in H.
  rewrite contains_cons in *. apply orb_false_iff in H as [H1 H2].
  rewrite (IH _ H2), orb_false_r.
  destruct (starts_with p (c :: t)) eqn:E; [|reflexivity].
  apply (starts_with_app _ _ b) in E. simpl app in E. congruence.
Qed.

Lemma contains_strip p t : contains p t = false -> contains p (strip t) = false.
Proof.
  intros H. unfold strip.
  destruct (lstrip_suffix t) as [a Ha].
  destruct (rstrip_prefix (lstrip t)) as [b Hb].
  rewrite Ha in H. apply contains_suffix in H.
  rewrite Hb in H. apply contains_prefix in H. exact H.
Qed.

(** Nothing before the first occurrence holds [p]. *)
Lemma find_at_first p : forall t i j,
  find_at p t i = Some j ->
  i <= j /\ contains p (firstn (j - i) t) = false \/ p = [].
Proof.
  destruct p as [|a p]; [right; reflexivity|].
  induction t as [|c t IH]; intros i j H.
  - discriminate.
  - rewrite find_at_cons in H.
    destruct (starts_with (a :: p) (c :: t)) eqn:E.
    + inversion H; subst. left. rewrite Nat.sub_diag. split; [lia | reflexivity].
    + apply IH in H as [[Hle Hc]|Hp]; [|discriminate]. left. split; [lia|].
      replace (j - i) with (S (j - S i)) by lia.
      cbn [firstn]. rewrite contains_cons, Hc, orb_false_r.
      destruct (starts_with (a :: p) (c :: firstn (j - S i) t)) eqn:E'; [|reflexivity].
      apply (starts_with_app _ _ (skipn (j - S i) t)) in E'.
      simpl app in E'. rewrite firstn_skipn in E'. congruence.
Qed.

Lemma find_at_missing p t i : find_at p t i = None -> contains p t = false.
Proof.
  intros H. unfold contains. rewrite (@find_at_none _ _ i 0 H). reflexivity.
Qed.

(** X7.  For every text and every start position, the
    description returned by [ApexDocParser.extract_section_description]
    has no leading or trailing whitespace and contains no paragraph
    break (two consecutive newlines). *)
Theorem section_description_is_one_paragraph (text : str) (start_pos : nat) :
  trimmed (ApexParser.extract_section_description text start_pos) = true
  /\ contains break (ApexParser.extract_section_description text start_pos)
     = false.
Proof.
  unfold ApexParser.extract_section_description, find.
  change (lit "\n\n") with break.
  destruct (start_pos <=? length text) eqn:Hle.
  - destruct (find_at break (skipn start_pos text) start_pos) as [e|] eqn:E.
    + split; [apply strip_trimmed | apply contains_strip].
      apply find_at_first in E as [[_ Hc]|Hp]; [exact Hc | discriminate].
    + split; [apply strip_trimmed | apply contains_strip].
      unfold slice_from. eapply find_at_missing, E.
  - split; [apply strip_trimmed | apply contains_strip].
    unfold slice_from. rewrite skipn_all2; [reflexivity|].
    apply Nat.leb_gt in Hle. lia.
Qed.

(* ------------------------------------------------------------------ *)
(** *** processor.py: pages without text *)
(* ------------------------------------------------------------------ *)

Lemma all_text_nil : forall texts i,
  Processor.all_text i texts = [] <-> Forall (fun t => t = []) texts.
Proof.
  induction texts as [|t texts IH]; intros i; cbn [Processor.all_text].
  - split; [constructor | reflexivity].
  - destruct t as [|c t]; cbn [truthy].
    + rewrite app_nil_l, IH. split.
      * intros H. constructor; [reflexivity | exact H].
      * intros H. inversion H; assumption.
    + split; [discriminate|]. intros H. inversion H; discriminate.
Qed.

(* ------------------------------------------------------------------ *)
(** *** simpleChunker.py: sections and method items *)
(* ------------------------------------------------------------------ *)

Lemma existsb_lstrip q t : existsb q t = false -> existsb q (lstrip t) = false.
Proof.
  intros H. destruct (lstrip_suffix t) as [a Ha]. rewrite Ha in H.
  rewrite existsb_app in H. apply orb_false_iff in H. apply H.
Qed.

Lemma existsb_rev' (q : ascii -> bool) t : existsb q (rev t) = existsb q t.
Proof.
  induction t as [|a t IH]; [reflexivity|].
  cbn [rev]. rewrite existsb_app, IH. simpl. rewrite orb_false_r. apply orb_comm.
Qed.

Lemma existsb_strip q t : existsb q t = false -> existsb q (strip t) = false.
Proof.
  intros H. unfold strip, rstrip. rewrite existsb_rev'. apply existsb_lstrip.
  rewrite existsb_rev'. apply existsb_lstrip, H.
Qed.

Lemma eat_filter p : forall aft bef,
  filter (fun c => negb (p c)) (snd (eat p bef aft))
  = filter (fun c => negb (p c)) aft.
Proof.
  induction aft as [|c aft IH]; intros bef; simpl; [reflexivity|].
  destruct (p c) eqn:Hc; simpl; [apply IH | rewrite Hc; reflexivity].
Qed.

(** [re.sub] of [p+] by nothing deletes exactly the characters in [p]. *)
Lemma sub_plus_deletes fl p : forall fuel bef aft,
  length aft < fuel ->
  subst fuel fl (Plus (Chr p)) [] bef aft = filter (fun c => negb (p c)) aft.
Proof.
  induction fuel as [|f IH]; intros bef aft Hlen; [lia|].
  cbn [subst]. rewrite here_plus.
  destruct aft as [|c rest]; [reflexivity|]. simpl in Hlen.
  destruct (p c) eqn:Hc.
  - cbn [after before].
    pose proof (eat_length p rest (c :: bef)) as Hle.
    replace (length (snd (eat p (c :: bef) rest)) <? length (c :: rest))
      with true by (symmetry; apply Nat.ltb_lt; simpl; lia).
    cbn [app]. rewrite IH by lia. rewrite eat_filter.
    simpl. rewrite Hc. reflexivity.
  - simpl. rewrite Hc. simpl. f_equal. apply IH. lia.
Qed.

Lemma existsb_filter_negb (p : ascii -> bool) : forall t,
  existsb p (filter (fun c => negb (p c)) t) = false.
Proof.
  induction t as [|c t IH]; [reflexivity|]. simpl.
  destruct (p c) eqn:Hc; simpl; [exact IH | rewrite Hc; exact IH].
Qed.

(** X9.  The title of a section of simpleChunker.py contains no
    digit and has no leading or trailing whitespace, whatever the
    section text is. *)
Theorem section_title_has_no_digit (sec : str) :
  trimmed (SimpleChunker.title (SimpleChunker.section_of sec)) = true
  /\ existsb is_digit (SimpleChunker.title (SimpleChunker.section_of sec)) = false.
Proof.
  unfold SimpleChunker.section_of. destruct (SimpleChunker.title_and_content sec) as [t c].
  cbn [SimpleChunker.title]. split; [apply strip_trimmed | apply existsb_strip].
  unfold sub, SimpleChunker.DIGITS, Patterns.dg.
  rewrite sub_plus_deletes by lia. apply existsb_filter_negb.
Qed.

Lemma iter_no_match fl r : forall aft bef fuel,
  scan fl r bef aft = None -> iter fuel fl r bef aft = [].
Proof.
  induction aft as [|c rest IH]; intros bef fuel Hs;
    (destruct fuel as [|f]; [reflexivity|]); cbn [iter]; cbn [scan] in Hs.
  - destruct (here fl r bef []); [discriminate | reflexivity].
  - destruct (here fl r bef (c :: rest)); [discriminate|]. apply IH, Hs.
Qed.

(** X10.  In simpleChunker.py a page whose text holds no line
    [--- PAGE n ---] contributes no section: when no page holds the
    marker the list of sections is empty, whatever else the pages
    contain, because the piece before the first marker is dropped. *)
Theorem page_without_marker_gives_no_section (pages : list str) :
  Forall (fun text => search no_flags SimpleChunker.PAGE_MARK text = None) pages ->
  SimpleChunker.sections (SimpleChunker.extract_data pages) = [].
Proof.
  intros H. unfold SimpleChunker.extract_data. cbn [SimpleChunker.sections].
  induction H as [|text pages Ht _ IH]; [reflexivity|].
  cbn [flat_map]. rewrite IH, app_nil_r.
  unfold SimpleChunker.sections_of, Re.split, finditer.
  rewrite iter_no_match by exact Ht. reflexivity.
Qed.

Lemma page_without_marker_gives_no_section_witness :
  SimpleChunker.sections
    (SimpleChunker.extract_data [lit "Apex Reference\n\nSystem Namespace\npublic void f()"])
  = [].
Proof.
  apply (@page_without_marker_gives_no_section
           [lit "Apex Reference\n\nSystem Namespace\npublic void f()"]).
  repeat constructor.
Defined.

Lemma run_word_starts fl : forall s st k res,
  run fl (word s) st k = Some res -> starts_with s (after st) = true.
Proof.
  induction s as [|c s IH]; intros st k res H; [reflexivity|].
  assert (Hc : forall k', run fl (ch c) st k' = Some res ->
            exists rest, after st = c :: rest /\ k' (step st c rest) = Some res).
  { intros k' Hk. unfold ch in Hk. cbn [run] in Hk.
    destruct (after st) as [|c' rest]; [discriminate|].
    destruct (Ascii.eqb_spec c c') as [->|]; [|discriminate].
    exists rest. split; [reflexivity | exact Hk]. }
  destruct s as [|c2 s].
  - apply Hc in H as [rest [E _]]. rewrite E. simpl.
    rewrite Ascii.eqb_refl. reflexivity.
  - change (word (c :: c2 :: s)) with (Seq (ch c) (word (c2 :: s))) in H.
    cbn [run] in H. apply Hc in H as [rest [E H]]. apply IH in H.
    rewrite E. cbn [starts_with]. rewrite Ascii.eqb_refl. exact H.
Qed.

(** X11.  simpleChunker.py emits a method item only for a
    paragraph that begins with [public], [global] or [static]: the test
    is a substring test, but the signature is then matched with
    [re.match], at the first character of the paragraph. *)
Theorem method_needs_leading_keyword
    (paragraph name signature : str) (parameters : list SimpleChunker.parameter)
    (return_type : str) :
  SimpleChunker.content_item_of paragraph
  = SimpleChunker.method_item name signature parameters return_type ->
  starts_with (lit "public") paragraph
  || starts_with (lit "global") paragraph
  || starts_with (lit "static") paragraph = true.
Proof.
  unfold SimpleChunker.content_item_of.
  destruct (starts_with (lit "*") paragraph); [discriminate|].
  destruct (starts_with (lit "Signature") paragraph); [discriminate|].
  destruct (_ || _ || _); [|discriminate].
  destruct (match_ no_flags SimpleChunker.SIGNATURE paragraph) as [m|] eqn:E;
    [|discriminate].
  intros _. unfold match_, here in E.
  destruct (run no_flags SimpleChunker.SIGNATURE _ Some) as [st|] eqn:R;
    [|discriminate].
  unfold SimpleChunker.SIGNATURE in R. cbn [cat alt] in R.
  cbn [run] in R.
  destruct (run no_flags (w "public") _ _) eqn:R1.
  - apply run_word_starts in R1. cbn [after] in R1.
    change (lit "public") with (lit "public") in *.
    unfold w in R1. rewrite R1. reflexivity.
  - destruct (run no_flags (w "global") _ _) eqn:R2.
    + apply run_word_starts in R2. cbn [after] in R2. unfold w in R2.
      rewrite R2. apply orb_true_iff. left. apply orb_true_r.
    + apply run_word_starts in R. cbn [after] in R. unfold w in R.
      rewrite R. apply orb_true_r.
Qed.

Lemma method_needs_leading_keyword_witness :
  starts_with (lit "public") (lit "public void put(Integer i)")
  || starts_with (lit "global") (lit "public void put(Integer i)")
  || starts_with (lit "static") (lit "public void put(Integer i)") = true.
Proof.
  apply (@method_needs_leading_keyword (lit "public void put(Integer i)")
           (lit "put") (lit "public void put(Integer i)")
           [ {| SimpleChunker.param_type := lit "Integer";
                SimpleChunker.param_name := lit "i" |} ]
           (lit "void")).
  vm_compute. reflexivity.
Defined.

(* ------------------------------------------------------------------ *)
(** *** Page markers written and read back *)
(* ------------------------------------------------------------------ *)

Lemma int_fold t : int t = fold_left int_step t 0%N.
Proof. reflexivity. Qed.

Lemma numeral_value : forall u acc,
  fold_left int_step (numeral u) (N.of_nat acc)
  = N.of_nat (Nat.of_uint_acc u acc).
Proof.
  induction u as [|u IH|u IH|u IH|u IH|u IH|u IH|u IH|u IH|u IH|u IH];
    intros acc; [reflexivity | ..];
    cbn [numeral NilEmpty.string_of_uint list_ascii_of_string fold_left
         Nat.of_uint_acc];
    fold (numeral u); rewrite <- IH; f_equal;
    rewrite Nat.tail_mul_spec; unfold int_step;
    match goal with
    | |- context [code ?c] =>
        let v := eval vm_compute in (code c - 48) in
        change (code c - 48) with v
    end; lia.
Qed.

Lemma numeral_digits : forall u, Forall (fun c => is_digit c = true) (numeral u).
Proof.
  induction u; cbn [numeral NilEmpty.string_of_uint list_ascii_of_string];
    constructor; (reflexivity || assumption).
Qed.

(** [int(str(n)) == n]. *)
Lemma int_decimal n : int (Processor.decimal n) = N.of_nat n.
Proof.
  unfold Processor.decimal. fold (numeral (Nat.to_uint n)).
  rewrite int_fold. change 0%N with (N.of_nat 0).
  rewrite numeral_value. change (Nat.of_uint_acc (Nat.to_uint n) 0)
    with (Nat.of_uint (Nat.to_uint n)).
  rewrite Unsigned.of_to. reflexivity.
Qed.

Lemma decimal_digits n : Forall (fun c => is_digit c = true) (Processor.decimal n).
Proof. apply numeral_digits. Qed.

Lemma decimal_not_nil n : Processor.decimal n <> [].
Proof.
  intros E. pose proof (int_decimal n) as H. rewrite E in H.
  destruct n; [discriminate E | discriminate H].
Qed.

(** A literal word that stands ahead is read and passed. *)
Lemma run_word_ok fl : forall s bef tail cs k,
  run fl (word s) {| before := bef; after := s ++ tail; caps := cs |} k
  = k {| before := rev s ++ bef; after := tail; caps := cs |}.
Proof.
  induction s as [|c s IH]; intros bef tail cs k; [reflexivity|].
  destruct s as [|c2 s].
  - unfold word, ch. cbn [run after app]. rewrite Ascii.eqb_refl. reflexivity.
  - change (word (c :: c2 :: s)) with (Seq (ch c) (word (c2 :: s))).
    unfold ch. cbn [run after app]. rewrite Ascii.eqb_refl.
    unfold step. cbn [before caps]. 
    change (c2 :: s ++ tail) with ((c2 :: s) ++ tail). rewrite IH.
    cbn [rev]. rewrite <- !app_assoc. reflexivity.
Qed.

Lemma run_word_none fl s st k :
  starts_with s (after st) = false -> run fl (word s) st k = None.
Proof.
  intros H. destruct (run fl (word s) st k) eqn:E; [|reflexivity].
  apply run_word_starts in E. congruence.
Qed.

Lemma here_word_none fl s r bef aft :
  starts_with s aft = false -> here fl (Seq (word s) r) bef aft = None.
Proof. intros H. unfold here. cbn [run]. apply run_word_none. exact H. Qed.

(** A greedy [p*] takes the whole run of [p] ahead when the continuation
    accepts what follows. *)
Lemma star_chr_all fl p (k : cont) tail cs : forall ds fuel bef,
  Forall (fun c => p c = true) ds ->
  match tail with c :: _ => p c = false | [] => True end ->
  length (ds ++ tail) < fuel ->
  k {| before := rev ds ++ bef; after := tail; caps := cs |} <> None ->
  star_loop (run fl (Chr p)) true fuel
    {| before := bef; after := ds ++ tail; caps := cs |} k
  = k {| before := rev ds ++ bef; after := tail; caps := cs |}.
Proof.
  induction ds as [|d ds IH]; intros fuel bef Hds Htail Hlen Hk;
    (destruct fuel as [|f]; [simpl in Hlen; lia|]); cbn [star_loop].
  - cbn [run after app]. destruct tail as [|c tail]; [reflexivity|].
    rewrite Htail. reflexivity.
  - inversion Hds as [|? ? Hd Hds']; subst.
    cbn [run after app]. rewrite Hd. unfold step. cbn [after before caps].
    replace (length (ds ++ tail) <? length (d :: ds ++ tail)) with true
      by (symmetry; apply Nat.ltb_lt; simpl; lia).
    assert (E : rev ds ++ d :: bef = rev (d :: ds) ++ bef)
      by (cbn [rev]; rewrite <- app_assoc; reflexivity).
    rewrite IH; [| assumption | assumption | simpl in Hlen; lia
                 | rewrite E; assumption].
    rewrite E. destruct (k _); [reflexivity | congruence].
Qed.

Lemma scan_pass fl r c bef aft :
  here fl r bef (c :: aft) = None ->
  scan fl r bef (c :: aft) = scan fl r (c :: bef) aft.
Proof. intros H. cbn [scan]. rewrite H. reflexivity. Qed.

(** The scan for a pattern that begins with a literal word passes over
    every character other than the first of the word. *)
Lemma scan_skip fl c s r : forall pre bef aft,
  has c pre = false ->
  scan fl (Seq (word (c :: s)) r) bef (pre ++ aft)
  = scan fl (Seq (word (c :: s)) r) (rev pre ++ bef) aft.
Proof.
  induction pre as [|x pre IH]; intros bef aft H; [reflexivity|].
  simpl in H. apply orb_false_iff in H as [Hx Hpre].
  change ((x :: pre) ++ aft) with (x :: pre ++ aft).
  rewrite scan_pass.
  - rewrite IH by exact Hpre. cbn [rev]. rewrite <- app_assoc. reflexivity.
  - apply here_word_none. cbn [starts_with]. rewrite Hx. reflexivity.
Qed.

Lemma digit_not_bracket c : is_digit c = true -> Ascii.eqb "["%char c = false.
Proof.
  intros H. destruct (Ascii.eqb_spec "["%char c) as [<-|]; [discriminate H | reflexivity].
Qed.

Lemma digits_no_bracket : forall ds,
  Forall (fun c => is_digit c = true) ds -> has "[" ds = false.
Proof.
  induction ds as [|d ds IH]; intros H; [reflexivity|].
  inversion H; subst. unfold has in *. cbn [existsb].
  rewrite digit_not_bracket by assumption. apply IH. assumption.
Qed.

(** The first opening marker is found and its number captured. *)
Lemma here_PAGE_FIRST bef n tail :
  exists st,
    here no_flags Patterns.PAGE_FIRST bef (open_mark n ++ tail) = Some st
    /\ caps st = [(1, (length bef + 6, length bef + 6 + length (Processor.decimal n)))].
Proof.
  pose proof (decimal_digits n) as Hd. pose proof (@decimal_not_nil n) as Hn.
  unfold open_mark. destruct (Processor.decimal n) as [|d ds]; [congruence|].
  inversion Hd as [|? ? Hd1 Hds]; subst.
  unfold here, Patterns.PAGE_FIRST. cbn [cat]. unfold w.
  cbn [run]. rewrite <- !app_assoc. rewrite run_word_ok.
  unfold Plus, Patterns.dg. cbn [run after app]. rewrite Hd1.
  unfold step. cbn [before after caps].
  change (lit "]") with ["]"%char].
  rewrite (@star_chr_all no_flags is_digit _ ("]"%char :: tail) [] ds).
  - unfold word, ch. cbn [run after close_group before caps].
    rewrite Ascii.eqb_refl. eexists. split; [reflexivity|].
    unfold step, close_group. unfold pos. cbn [caps before].
    rewrite ?length_app, ?length_rev. cbn [length].
    rewrite ?length_app, ?length_rev.
    change (length (lit "[PAGE_")) with 6.
    repeat (f_equal; try lia).
  - exact Hds.
  - reflexivity.
  - cbn [after]. change (["]"%char] ++ tail) with ("]"%char :: tail). lia.
  - unfold word, ch. cbn [run after close_group before caps].
    rewrite Ascii.eqb_refl. discriminate.
Qed.

(** After a newline the lookahead [(?!.*\[/PAGE_\d+\])] sees nothing:
    without [re.DOTALL] the dot does not pass the newline. *)
Lemma not_ahead_at_newline s r bef tail cs k :
  run no_flags (NotAhead (Seq (Star true Dot) (Seq (word ("["%char :: s)) r)))
      {| before := bef; after := nl :: tail; caps := cs |} k
  = k {| before := bef; after := nl :: tail; caps := cs |}.
Proof.
  cbn [run star_loop after length]. 
  change (dot_ok no_flags nl) with false. cbv iota.
  rewrite run_word_none by reflexivity. reflexivity.
Qed.

Lemma here_PAGE_LAST bef n tail :
  exists st,
    here no_flags Patterns.PAGE_LAST bef (close_mark n ++ nl :: tail) = Some st
    /\ caps st = [(1, (length bef + 7, length bef + 7 + length (Processor.decimal n)))].
Proof.
  pose proof (decimal_digits n) as Hd. pose proof (@decimal_not_nil n) as Hn.
  unfold close_mark. destruct (Processor.decimal n) as [|d ds]; [congruence|].
  inversion Hd as [|? ? Hd1 Hds]; subst.
  unfold here, Patterns.PAGE_LAST. cbn [cat]. unfold w.
  cbn [run]. rewrite <- !app_assoc. rewrite run_word_ok.
  unfold Plus at 1. unfold Patterns.dg at 1 2. cbn [run after app]. rewrite Hd1.
  unfold step. cbn [before after caps].
  change (lit "]") with ["]"%char].
  change (["]"%char] ++ nl :: tail) with ("]"%char :: nl :: tail).
  assert (Hk : forall b,
    run no_flags (word ["]"%char])
      (close_group 1 (pos {| before := rev (lit "[/PAGE_") ++ bef;
                             after := d :: ds ++ "]"%char :: nl :: tail;
                             caps := [] |})
         {| before := b; after := "]"%char :: nl :: tail; caps := [] |})
      (fun st' => run no_flags
         (NotAhead (Seq (Star true Dot)
            (Seq (word (lit "[/PAGE_"))
               (Seq (Plus Patterns.dg) (word ["]"%char]))))) st' Some)
    = Some {| before := "]"%char :: b; after := nl :: tail;
              caps := [(1, (length (rev (lit "[/PAGE_") ++ bef), length b))] |}).
  { intros b. unfold close_group. cbn [before after caps].
    change ("]"%char :: nl :: tail) with (["]"%char] ++ nl :: tail).
    rewrite run_word_ok. cbv beta.
    change (lit "[/PAGE_") with ("["%char :: lit "/PAGE_").
    rewrite not_ahead_at_newline. reflexivity. }
  rewrite (@star_chr_all no_flags is_digit _ ("]"%char :: nl :: tail) [] ds).
  - rewrite Hk. eexists. split; [reflexivity|]. cbn [caps].
    rewrite ?length_app, ?length_rev. cbn [length].
    rewrite ?length_app, ?length_rev.
    change (length (lit "[/PAGE_")) with 7.
    repeat (f_equal; try lia).
  - exact Hds.
  - reflexivity.
  - cbn [after]. lia.
  - rewrite Hk. discriminate.
Qed.

Lemma scan_found fl r bef aft st :
  here fl r bef aft = Some st -> scan fl r bef aft = Some (obj (length bef) st).
Proof. intros H. destruct aft; cbn [scan]; rewrite H; reflexivity. Qed.

Lemma group_1 content start st a b :
  caps st = [(1, (a, b))] -> group content (obj start st) 1 = slice content a b.
Proof. intros H. unfold group, obj. cbn [m_caps]. rewrite H. reflexivity. Qed.

Lemma slice_inside (pre body rest : str) a :
  a = length pre ->
  slice (pre ++ body ++ rest) a (a + length body) = body.
Proof. intros ->. apply slice_middle. Qed.

Lemma all_text_first i text texts :
  truthy text = true ->
  Processor.all_text i (text :: texts)
  = nl :: open_mark (i + 1) ++ nl :: text ++ nl :: close_mark (i + 1)
       ++ nl :: Processor.all_text (S i) texts.
Proof.
  intros Ht. cbn [Processor.all_text]. rewrite Ht.
  unfold open_mark, close_mark.
  change (lit "\n[PAGE_") with ([nl] ++ lit "[PAGE_").
  change (lit "]\n") with (lit "]" ++ [nl]).
  change (lit "\n[/PAGE_") with ([nl] ++ lit "[/PAGE_").
  repeat rewrite <- app_assoc. reflexivity.
Qed.

(** The page range of a text that begins with the block of one page. *)
Lemma page_range_of_first_block n text rest :
  has "[" text = false ->
  Patterns.find_page_range
    (nl :: open_mark n ++ nl :: text ++ nl :: close_mark n ++ nl :: rest)
  = {| Patterns.pr_start := N.of_nat n; Patterns.pr_end := N.of_nat n |}.
Proof.
  intros Hb.
  set (content := nl :: open_mark n ++ nl :: text ++ nl :: close_mark n ++ nl :: rest).
  unfold Patterns.find_page_range. f_equal.
  - assert (E : content = (nl :: lit "[PAGE_") ++ Processor.decimal n
                   ++ (lit "]" ++ nl :: text ++ nl :: close_mark n ++ nl :: rest)).
    { unfold content, open_mark.
      repeat first [rewrite <- app_assoc | progress cbn [app]]. reflexivity. }
    unfold search. unfold content at 1.
    unfold Patterns.PAGE_FIRST at 1. cbn [cat]. unfold w.
    rewrite scan_pass by (apply here_word_none; reflexivity).
    destruct (here_PAGE_FIRST [nl] n (nl :: text ++ nl :: close_mark n ++ nl :: rest))
      as [st [Hh Hc]].
    unfold Patterns.PAGE_FIRST in Hh. cbn [cat] in Hh. unfold w in Hh.
    rewrite (@scan_found _ _ _ _ _ Hh). rewrite (@group_1 _ _ _ _ _ Hc). rewrite E.
    rewrite slice_inside by reflexivity. apply int_decimal.
  - set (pre2 := lit "PAGE_" ++ Processor.decimal n ++ lit "]" ++ nl :: text ++ [nl]).
    assert (E : content = (nl :: "["%char :: pre2 ++ lit "[/PAGE_")
                   ++ Processor.decimal n ++ (lit "]" ++ nl :: rest)).
    { unfold content, open_mark, close_mark, pre2.
      change (lit "[PAGE_") with ("["%char :: lit "PAGE_").
      repeat first [rewrite <- app_assoc | progress cbn [app]]. reflexivity. }
    assert (E' : content = nl :: "["%char :: pre2 ++ close_mark n ++ nl :: rest).
    { rewrite E. unfold close_mark.
      repeat first [rewrite <- app_assoc | progress cbn [app]]. reflexivity. }
    unfold search. rewrite E' at 1.
    unfold Patterns.PAGE_LAST at 1. cbn [cat]. unfold w.
    rewrite scan_pass by (apply here_word_none; reflexivity).
    rewrite scan_pass by (apply here_word_none; reflexivity).
    change (lit "[/PAGE_") with ("["%char :: lit "/PAGE_").
    rewrite scan_skip.
    2:{ unfold pre2. rewrite !has_app.
        rewrite (digits_no_bracket (decimal_digits n)).
        change (nl :: text ++ [nl]) with ([nl] ++ text ++ [nl]).
        rewrite !has_app, Hb. reflexivity. }
    destruct (here_PAGE_LAST (rev pre2 ++ ["["%char; nl]) n rest) as [st [Hh Hc]].
    unfold Patterns.PAGE_LAST in Hh. cbn [cat] in Hh. unfold w in Hh.
    change (lit "[/PAGE_") with ("["%char :: lit "/PAGE_") in Hh.
    rewrite (@scan_found _ _ _ _ _ Hh). rewrite (@group_1 _ _ _ _ _ Hc). rewrite E.
    change ("["%char :: lit "/PAGE_") with (lit "[/PAGE_").
    rewrite slice_inside; [apply int_decimal|].
    cbn [length]. rewrite !length_app, length_rev. cbn [length].
    change (length (lit "[/PAGE_")) with 7. lia.
Qed.

(** X12.  The page markers written by
    [extract_text_from_pdf] are read back by [find_page_range]: when the
    first page with text is page [i + 1] and its text holds no opening
    square bracket, the page range of the whole marked-up text starts
    and ends at [i + 1], however many pages follow. *)
Theorem first_page_markers_are_read_back (i : nat) (text : str) (texts : list str) :
  truthy text = true ->
  has "[" text = false ->
  Patterns.find_page_range (Processor.all_text i (text :: texts))
  = {| Patterns.pr_start := N.of_nat (i + 1);
       Patterns.pr_end := N.of_nat (i + 1) |}.
Proof.
  intros Ht Hb. rewrite all_text_first by exact Ht.
  apply page_range_of_first_block, Hb.
Qed.

Lemma first_page_markers_are_read_back_witness :
  Patterns.find_page_range
    (Processor.all_text 11 [lit "Foo Namespace\nbody"; lit "more"])
  = {| Patterns.pr_start := N.of_nat (11 + 1);
       Patterns.pr_end := N.of_nat (11 + 1) |}.
Proof.
  apply (@first_page_markers_are_read_back 11 (lit "Foo Namespace\nbody")
           [lit "more"]); reflexivity.
Defined.

(* ------------------------------------------------------------------ *)
(** *** What a pattern without groups reads *)
(* ------------------------------------------------------------------ *)

Lemma passes_here q (k : cont) st res : k st = Some res ->
  exists v tail,
    after st = v ++ tail /\ forallb q v = true
    /\ k {| before := rev v ++ before st; after := tail; caps := caps st |}
       = Some res.
Proof. intros H. exists [], (after st). destruct st. repeat split. exact H. Qed.

Lemma passes_step q (k : cont) st c rest res :
  after st = c :: rest -> q c = true -> k (step st c rest) = Some res ->
  exists v tail,
    after st = v ++ tail /\ forallb q v = true
    /\ k {| before := rev v ++ before st; after := tail; caps := caps st |}
       = Some res.
Proof.
  intros E Hq H. exists [c], rest. repeat split; [exact E | |exact H].
  simpl. rewrite Hq. reflexivity.
Qed.

Lemma passes_then q (k : cont) st v tail res :
  after st = v ++ tail -> forallb q v = true ->
  (exists v' tail',
     tail = v' ++ tail' /\ forallb q v' = true
     /\ k {| before := rev v' ++ rev v ++ before st; after := tail';
             caps := caps st |} = Some res) ->
  exists v tail,
    after st = v ++ tail /\ forallb q v = true
    /\ k {| before := rev v ++ before st; after := tail; caps := caps st |}
       = Some res.
Proof.
  intros E Hq (v' & tail' & E' & Hq' & H). exists (v ++ v'), tail'. repeat split.
  - rewrite E, E', app_assoc. reflexivity.
  - rewrite forallb_app, Hq, Hq'. reflexivity.
  - rewrite rev_app_distr, <- app_assoc. exact H.
Qed.

Lemma star_passes q body greedy : passes q body ->
  forall fuel, passes q (fun st k => star_loop body greedy fuel st k).
Proof.
  intros Hb. induction fuel as [|f IH]; intros st k res H.
  - apply passes_here, H.
  - cbn [star_loop] in H.
    assert (Hagain : forall r, body st (fun st' =>
              if length (after st') <? length (after st)
              then star_loop body greedy f st' k else None) = Some r ->
              exists v tail,
                after st = v ++ tail /\ forallb q v = true
                /\ k {| before := rev v ++ before st; after := tail;
                        caps := caps st |} = Some r).
    { intros r Hr. apply Hb in Hr as (v & tail & E & Hq & Hr).
      cbn [after] in Hr. destruct (length tail <? length (after st)); [|discriminate].
      apply IH in Hr. cbn [after before caps] in Hr.
      eapply passes_then; eassumption. }
    destruct greedy.
    + destruct (body st _) as [r|] eqn:E.
      * inversion H; subst. apply Hagain. reflexivity.
      * apply passes_here, H.
    + destruct (k st) as [r|] eqn:E.
      * inversion H; subst. apply passes_here, E.
      * apply Hagain, H.
Qed.

Lemma run_passes fl q : forall r, reads q r -> passes q (run fl r).
Proof.
  induction r as [|p| |r1 IH1 r2 IH2|r1 IH1 r2 IH2|g r1 IH1|n r1 IH1| | |
                  |r1 IH1|r1 IH1|s]; intros Hr st k res H; cbn [run] in H;
    cbn [reads] in Hr.
  - apply passes_here, H.
  - destruct (after st) as [|c rest] eqn:E; [discriminate|].
    destruct (p c) eqn:Hp; [|discriminate].
    rewrite <- E. eapply passes_step; [exact E | apply Hr, Hp | exact H].
  - destruct (after st) as [|c rest] eqn:E; [discriminate|].
    destruct (dot_ok fl c); [|discriminate].
    rewrite <- E. eapply passes_step; [exact E | apply Hr | exact H].
  - destruct Hr as [Hr1 Hr2].
    apply (IH1 Hr1) in H as (v & tail & E & Hq & H).
    apply (IH2 Hr2) in H. cbn [after before caps] in H.
    eapply passes_then; eassumption.
  - destruct Hr as [Hr1 Hr2]. destruct (run fl r1 st k) as [r|] eqn:E.
    + inversion H; subst. apply (IH1 Hr1), E.
    + apply (IH2 Hr2), H.
  - apply (star_passes g (IH1 Hr)) in H. exact H.
  - contradiction.
  - destruct (at_bol fl st); [|discriminate]. apply passes_here, H.
  - destruct (at_eol fl st); [|discriminate]. apply passes_here, H.
  - destruct (at_end st); [|discriminate]. apply passes_here, H.
  - destruct (run fl r1 st Some); [|discriminate]. apply passes_here, H.
  - destruct (run fl r1 st Some); [discriminate|]. apply passes_here, H.
  - destruct (starts_with (rev s) (before st)); [|discriminate].
    apply passes_here, H.
Qed.

(* ------------------------------------------------------------------ *)
(** *** patterns.py: names and return types *)
(* ------------------------------------------------------------------ *)

Lemma run_Seq fl a b st k :
  run fl (Seq a b) st k = run fl a st (fun st' => run fl b st' k).
Proof. reflexivity. Qed.

Lemma run_Group fl n r st k :
  run fl (Group n r) st k = run fl r st (fun st' => k (close_group n (pos st) st')).
Proof. reflexivity. Qed.

Lemma bol_inv fl st k res : run fl Bol st k = Some res -> k st = Some res.
Proof. cbn [run]. destruct (at_bol fl st); [auto | discriminate]. Qed.

Lemma chr_inv fl p st k res :
  run fl (Chr p) st k = Some res ->
  exists c rest, after st = c :: rest /\ p c = true /\ k (step st c rest) = Some res.
Proof.
  cbn [run]. destruct (after st) as [|c rest]; [discriminate|].
  destruct (p c) eqn:E; [|discriminate]. intros H. exists c, rest. auto.
Qed.

Lemma reads_any_word : forall s, reads any (word s).
Proof.
  induction s as [|c s IH]; [exact I|].
  destruct s as [|c2 s]; [intros ? _; reflexivity|].
  split; [intros ? _; reflexivity | exact IH].
Qed.

(** What a heading match captures. *)
Lemma here_heading fl kind bef aft st :
  here fl (Patterns.heading kind) bef aft = Some st ->
  exists id tail,
    aft = id ++ tail /\ capitalised id = true
    /\ caps st = [(1, (length bef, length bef + length id))].
Proof.
  unfold here, Patterns.heading. cbn [cat]. intros H.
  rewrite run_Seq in H. apply bol_inv in H.
  rewrite run_Seq, run_Group, run_Seq in H.
  apply chr_inv in H as (u & rest & E & Hu & H). cbn [after] in E. subst aft.
  unfold Plus at 1 in H. rewrite run_Seq in H.
  apply chr_inv in H as (a & rest' & E & Ha & H). cbn [after step] in E. subst rest.
  apply (@run_passes fl is_alpha (Star true (Chr is_alpha))) in H;
    [|intros c Hc; exact Hc].
  destruct H as (v & tail & E & Hv & H). cbn [after step] in E. subst rest'.
  cbn [before step caps close_group pos] in H.
  apply (@run_passes fl any) in H.
  - destruct H as (v' & tail' & _ & _ & H). inversion H; subst st.
    exists (u :: a :: v), tail. repeat split.
    + cbn [capitalised forallb]. rewrite Hu, Ha, Hv. reflexivity.
    + cbn [caps]. unfold pos. cbn [before length].
      rewrite length_app, length_rev. cbn [length].
      repeat (f_equal; try lia).
  - cbn [reads]. unfold Plus. cbn [reads]. unfold any.
    repeat split; auto. apply reads_any_word.
Qed.

Lemma slice_captured (bef' aft' id tail text : str) :
  rev bef' ++ aft' = text -> aft' = id ++ tail ->
  slice text (length bef') (length bef' + length id) = id.
Proof.
  intros <- ->. rewrite <- (length_rev bef'). apply slice_middle.
Qed.

Lemma heading_group kind text m :
  In m (finditer multiline (Patterns.heading kind) text) ->
  capitalised (group text m 1) = true.
Proof.
  unfold finditer. intros H.
  apply iter_In in H as (b & a & st & Ht & _ & Hh & ->).
  apply here_heading in Hh as (id & tail & Ea & Hid & Hc).
  unfold group, obj. cbn [m_caps]. rewrite Hc. cbn [cap_lookup Nat.eqb].
  rewrite (@slice_captured b a id tail text); auto.
Qed.

(** X13.  The names [ContentExtractor] gives to entities: a
    namespace name is a capital letter followed by at least one more
    letter, and a class or statement name is such a word followed by
    [ Class] or [ Statement]. *)
Theorem heading_names_are_capitalised_words (text : str) :
  Forall (fun n => capitalised (Patterns.namespace_name n) = true)
         (Patterns.extract_namespaces text)
  /\ Forall (fun c => exists id, Patterns.class_name c = id ++ lit " Class"
                                 /\ capitalised id = true)
            (Patterns.extract_classes text)
  /\ Forall (fun o => exists id, Patterns.operation_name o = id ++ lit " Statement"
                                 /\ capitalised id = true)
            (Patterns.statements (Patterns.extract_dml_operations text)).
Proof.
  unfold Patterns.extract_namespaces, Patterns.extract_classes,
    Patterns.extract_dml_operations. cbn [Patterns.statements].
  repeat split; apply Forall_map, Forall_forall; intros m Hm.
  - cbn [Patterns.namespace_name]. eapply heading_group, Hm.
  - cbn [Patterns.class_name]. eexists. split; [reflexivity|].
    eapply heading_group, Hm.
  - cbn [Patterns.operation_name]. eexists. split; [reflexivity|].
    eapply heading_group, Hm.
Qed.

Lemma scan_In fl r : forall aft bef m,
  scan fl r bef aft = Some m ->
  exists bef' aft' st,
    rev bef' ++ aft' = rev bef ++ aft
    /\ here fl r bef' aft' = Some st
    /\ m = obj (length bef') st.
Proof.
  induction aft as [|c aft IH]; intros bef m H; cbn [scan] in H.
  - destruct (here fl r bef []) as [st|] eqn:E; [|discriminate].
    inversion H; subst. exists bef, [], st. auto.
  - destruct (here fl r bef (c :: aft)) as [st|] eqn:E.
    + inversion H; subst. exists bef, (c :: aft), st. auto.
    + apply IH in H as (b & a & st & Ht & Hh & Hm).
      exists b, a, st. repeat split; try assumption.
      rewrite Ht. simpl. rewrite <- app_assoc. reflexivity.
Qed.

Lemma seq_forwards fl a b st k res :
  run fl (Seq a b) st k = Some res ->
  exists st', advance st st' /\ run fl b st' k = Some res.
Proof. rewrite run_Seq. intros H. apply run_forwards in H. exact H. Qed.

Lemma here_RETURN_TYPE fl bef aft st :
  here fl Patterns.RETURN_TYPE bef aft = Some st ->
  exists b' c v tail,
    rev b' ++ c :: v ++ tail = rev bef ++ aft
    /\ dotted_name (c :: v) = true
    /\ cap_lookup 1 (caps st) = Some (length b', length b' + length (c :: v)).
Proof.
  unfold here, Patterns.RETURN_TYPE. cbn [cat]. intros H.
  apply seq_forwards in H as (st1 & A1 & H).
  apply seq_forwards in H as (st2 & A2 & H).
  apply seq_forwards in H as (st3 & A3 & H).
  apply seq_forwards in H as (st4 & A4 & H).
  pose proof (advance_trans A1 (advance_trans A2 (advance_trans A3 A4))) as A.
  apply advance_text in A. cbn [before after] in A.
  rewrite run_Group, run_Seq in H. unfold Plus at 1 in H. rewrite run_Seq in H.
  apply chr_inv in H as (c & rest & E & Hc & H).
  rewrite <- run_Seq in H.
  apply (@run_passes fl (fun x => is_word x || Ascii.eqb x "."%char)) in H.
  - destruct H as (v & tail & E' & Hv & H). cbn [after step] in E'.
    inversion H; subst st. clear H.
    exists (before st4), c, v, tail. repeat split.
    + rewrite <- A, E, E'. reflexivity.
    + cbn [dotted_name]. unfold Patterns.wd in Hc. rewrite Hc, Hv. reflexivity.
    + cbn [caps close_group cap_lookup Nat.eqb]. unfold pos.
      cbn [before step]. rewrite length_app, length_rev. cbn [length].
      repeat (f_equal; try lia).
  - cbn [reads]. unfold Plus, Patterns.wd, w. cbn [reads lit word ch].
    repeat split; intros x Hx; rewrite ?Hx, ?orb_true_r; try reflexivity.
    apply Ascii.eqb_eq in Hx. subst x. reflexivity.
Qed.

(** X14.  The return type extracted by
    [ContentExtractor.extract_return_type] is empty or begins with a
    word character and consists of word characters and dots only. *)
Theorem return_type_is_a_dotted_name (content : str) :
  dotted_name (Patterns.extract_return_type content) = true.
Proof.
  unfold Patterns.extract_return_type, search.
  destruct (scan dotall Patterns.RETURN_TYPE [] content) as [m|] eqn:E;
    [|reflexivity].
  apply scan_In in E as (b & a & st & Ht & Hh & ->).
  apply here_RETURN_TYPE in Hh as (b' & c & v & tail & Ht' & Hd & Hc).
  unfold group, obj. cbn [m_caps]. rewrite Hc.
  rewrite Ht in Ht'. cbn [rev app] in Ht'.
  rewrite (@slice_captured b' (c :: v ++ tail) (c :: v) tail content); auto.
Qed.

Lemma word_not_space c : is_word c = true -> is_space c = false.
Proof.
  destruct c as [[] [] [] [] [] [] [] []]; intros H; try reflexivity;
    discriminate H.
Qed.

Lemma lstrip_spaces : forall a b,
  forallb is_space a = true -> lstrip (a ++ b) = lstrip b.
Proof.
  induction a as [|x a IH]; intros b H; [reflexivity|].
  simpl in H. apply andb_true_iff in H as [Hx Ha].
  simpl. rewrite Hx. apply IH, Ha.
Qed.

Lemma forallb_rev (q : ascii -> bool) t : forallb q (rev t) = forallb q t.
Proof.
  induction t as [|a t IH]; [reflexivity|].
  cbn [rev]. rewrite forallb_app, IH. simpl. rewrite andb_true_r. apply andb_comm.
Qed.

Lemma strip_word_then_spaces ws sps :
  forallb is_word ws = true -> forallb is_space sps = true ->
  strip (ws ++ sps) = ws.
Proof.
  intros Hw Hs. unfold strip, rstrip.
  assert (Hfix : forall t, forallb is_word t = true -> lstrip t = t).
  { intros t Ht. apply lstrip_fixed. destruct t as [|c t]; [reflexivity|].
    simpl in Ht. apply andb_true_iff in Ht as [Hc _].
    simpl. apply word_not_space, Hc. }
  destruct ws as [|c ws].
  - cbn [app]. rewrite <- (app_nil_r sps), lstrip_spaces by exact Hs.
    reflexivity.
  - assert (Hc : is_space c = false).
    { simpl in Hw. apply andb_true_iff in Hw as [Hc _].
      apply word_not_space, Hc. }
    cbn [app lstrip]. rewrite Hc.
    change (c :: ws ++ sps) with ((c :: ws) ++ sps).
    rewrite rev_app_distr, lstrip_spaces by (rewrite forallb_rev; exact Hs).
    rewrite Hfix by (rewrite forallb_rev; exact Hw).
    apply rev_involutive.
Qed.

Lemma here_NAME fl bef aft st :
  here fl Patterns.NAME bef aft = Some st ->
  exists ws sps tail,
    aft = (ws ++ sps ++ [paren_l]) ++ tail
    /\ forallb is_word ws = true /\ forallb is_space sps = true
    /\ pos st = length bef + length (ws ++ sps ++ [paren_l]).
Proof.
  unfold here, Patterns.NAME. cbn [cat]. intros H.
  rewrite run_Seq in H.
  apply (@run_passes fl is_word) in H;
    [|unfold Plus, Patterns.wd; cbn [reads]; auto].
  destruct H as (ws & t1 & E1 & Hw & H). cbn [after before caps] in *.
  rewrite run_Seq in H.
  apply (@run_passes fl is_space) in H; [|unfold Patterns.sp; cbn [reads]; auto].
  destruct H as (sps & t2 & E2 & Hs & H). cbn [after before caps] in *.
  change (w "(") with (Chr (Ascii.eqb paren_l)) in H.
  apply chr_inv in H as (c & tail & E3 & Hc & H). cbn [after] in E3.
  apply Ascii.eqb_eq in Hc. subst c. inversion H; subst st.
  exists ws, sps, tail. repeat split; try assumption.
  - rewrite E1, E2, E3, <- !app_assoc. reflexivity.
  - unfold pos, step. cbn [before length].
    rewrite !length_app, !length_rev. cbn [length]. lia.
Qed.

(** X15.  The name of every method returned by
    [ContentExtractor.extract_methods] consists of word characters only:
    the opening parenthesis and the whitespace before it are removed. *)
Theorem method_name_is_made_of_word_characters (text : str) :
  Forall (fun m => forallb is_word (Patterns.method_name m) = true)
         (Patterns.extract_methods text).
Proof.
  unfold Patterns.extract_methods. apply Forall_map, Forall_forall.
  intros m _. cbn [Patterns.method_name].
  set (line := hd [] (Py.split nl (Patterns.section Patterns.METHOD_START text m))).
  unfold search.
  destruct (scan no_flags Patterns.NAME [] line) as [nm|] eqn:E; [|reflexivity].
  apply scan_In in E as (b & a & st & Ht & Hh & ->).
  apply here_NAME in Hh as (ws & sps & tail & Ea & Hw & Hs & Hp).
  unfold group, obj. cbn [m_start m_end]. rewrite Hp.
  cbn [rev app] in Ht.
  rewrite (@slice_captured b a (ws ++ sps ++ [paren_l]) tail line) by auto.
  rewrite app_assoc, removelast_last.
  rewrite strip_word_then_spaces; assumption.
Qed.

(* ------------------------------------------------------------------ *)
(** *** patterns.py: descriptions *)
(* ------------------------------------------------------------------ *)

Lemma tidy_cleaned (d : option str) :
  tidy (match d with Some t => Patterns.clean_description t | None => [] end)
  = true.
Proof.
  destruct d as [t|]; [|reflexivity].
  destruct (clean_shape t) as (Hn & Hs & He).
  unfold tidy, trimmed. rewrite Hn, Hs, He. reflexivity.
Qed.

Lemma methods_tidy text :
  Forall (fun m => tidy (Patterns.method_description m) = true)
         (Patterns.extract_methods text).
Proof.
  unfold Patterns.extract_methods. apply Forall_map, Forall_forall.
  intros m _. cbn [Patterns.method_description].
  destruct (search dotall Patterns.METHOD_DESC _) as [dm|].
  - apply (tidy_cleaned (Some _)).
  - reflexivity.
Qed.

Lemma classes_tidy text :
  Forall (fun c => tidy (Patterns.class_description c) = true
                   /\ Forall (fun m => tidy (Patterns.method_description m) = true)
                             (Patterns.class_methods c))
         (Patterns.extract_classes text).
Proof.
  unfold Patterns.extract_classes. apply Forall_map, Forall_forall.
  intros m _. cbn [Patterns.class_description Patterns.class_methods].
  split; [|apply methods_tidy].
  destruct (search dotall Patterns.CLASS_DESC _) as [dm|].
  - apply (tidy_cleaned (Some _)).
  - reflexivity.
Qed.

(** X16.  Every description in the tree returned by
    [ContentExtractor.extract_namespaces] (of a namespace, of its
    classes and of their methods) is tidy: no leading or trailing
    whitespace, and no whitespace character other than single blanks. *)
Theorem every_description_is_tidy (text : str) :
  Forall (fun n =>
            tidy (Patterns.namespace_description n) = true
            /\ Forall (fun c =>
                         tidy (Patterns.class_description c) = true
                         /\ Forall (fun m =>
                                      tidy (Patterns.method_description m) = true)
                                   (Patterns.class_methods c))
                      (Patterns.namespace_subsections n))
         (Patterns.extract_namespaces text).
Proof.
  unfold Patterns.extract_namespaces. apply Forall_map, Forall_forall.
  intros m _.
  cbn [Patterns.namespace_description Patterns.namespace_subsections].
  split; [|apply classes_tidy].
  destruct (search dotall Patterns.NAMESPACE_DESC _) as [dm|].
  - apply (tidy_cleaned (Some _)).
  - reflexivity.
Qed.

(* ------------------------------------------------------------------ *)
(** *** patterns.py: a text without page markers *)
(* ------------------------------------------------------------------ *)

(** A pattern that begins with a literal word is found nowhere in a text
    that does not hold the word. *)
Lemma scan_word_missing fl s r : forall t bef,
  contains s t = false -> scan fl (Seq (word s) r) bef t = None.
Proof.
  induction t as [|c t IH]; intros bef H.
  - cbn [scan]. rewrite here_word_none; [reflexivity|].
    destruct s; [discriminate H | reflexivity].
  - rewrite contains_cons in H. apply orb_false_iff in H as [H1 H2].
    rewrite scan_pass by (apply here_word_none; exact H1).
    apply IH, H2.
Qed.

(** X17.  [find_page_range] on a text without markers: when the
    content holds neither [[PAGE_] nor [[/PAGE_], both sides of the page
    range are the sentinel 0, whatever else the content holds. *)
Theorem page_range_of_unmarked_text (content : str) :
  contains (lit "[PAGE_") content = false ->
  contains (lit "[/PAGE_") content = false ->
  Patterns.find_page_range content
  = {| Patterns.pr_start := 0%N; Patterns.pr_end := 0%N |}.
Proof.
  intros H1 H2. unfold Patterns.find_page_range, search.
  unfold Patterns.PAGE_FIRST, Patterns.PAGE_LAST. cbn [cat]. unfold w.
  rewrite !scan_word_missing by assumption. reflexivity.
Qed.

Lemma page_range_of_unmarked_text_witness :
  Patterns.find_page_range (lit "Foo Namespace\n[see PAGE_3]\nbody")
  = {| Patterns.pr_start := 0%N; Patterns.pr_end := 0%N |}.
Proof.
  apply (@page_range_of_unmarked_text (lit "Foo Namespace\n[see PAGE_3]\nbody"));
    reflexivity.
Defined.

(* ------------------------------------------------------------------ *)
(** *** apex_parser.py: the classes of a namespace *)
(* ------------------------------------------------------------------ *)

Lemma scan_none_later fl r : forall x bef aft,
  scan fl r bef (x ++ aft) = None -> scan fl r (rev x ++ bef) aft = None.
Proof.
  induction x as [|c x IH]; intros bef aft H; [exact H|].
  change ((c :: x) ++ aft) with (c :: x ++ aft) in H. cbn [scan] in H.
  destruct (here fl r bef (c :: x ++ aft)); [discriminate|].
  apply IH in H. cbn [rev]. rewrite <- app_assoc. exact H.
Qed.

Lemma search_from_none_later fl r t p q :
  search_from fl r t p = None -> p <= q -> search_from fl r t q = None.
Proof.
  unfold search_from. intros H Hpq.
  destruct (q <=? length t) eqn:Eq; [|reflexivity].
  apply Nat.leb_le in Eq.
  replace (p <=? length t) with true in H by (symmetry; apply Nat.leb_le; lia).
  assert (E1 : skipn p t = firstn (q - p) (skipn p t) ++ skipn q t).
  { replace (skipn q t) with (skipn (q - p) (skipn p t)).
    - symmetry. apply firstn_skipn.
    - rewrite skipn_skipn. f_equal. lia. }
  assert (E2 : firstn q t = firstn p t ++ firstn (q - p) (skipn p t)).
  { rewrite <- (firstn_skipn p t) at 1.
    rewrite firstn_app, length_firstn.
    replace (Nat.min p (length t)) with p by lia.
    rewrite firstn_firstn. replace (Nat.min q p) with p by lia. reflexivity. }
  rewrite E1 in H. apply scan_none_later in H.
  rewrite E2, rev_app_distr. exact H.
Qed.

(** The matches come in the order of the text. *)
Lemma iter_ordered fl r : forall fuel bef aft m1 rest,
  iter fuel fl r bef aft = m1 :: rest ->
  Forall (fun m => m_end m1 <= m_end m) rest.
Proof.
  intros fuel. 
  assert (Hin : forall f b a n m, In m (iter f fl r b a) -> n <= length b ->
                                  n <= m_end m).
  { intros f b a n m H Hn. apply iter_In in H as (b' & a' & st & _ & Hl & Hh & ->).
    apply here_advance, advance_length in Hh. cbn [before] in Hh.
    unfold obj. cbn [m_end]. unfold pos. lia. }
  induction fuel as [|f IH]; intros bef aft m1 rest H; [discriminate|].
  cbn [iter] in H.
  assert (Hnext : forall n c aft', aft = c :: aft' -> n <= S (length bef) ->
            Forall (fun m => n <= m_end m) (iter f fl r (c :: bef) aft')).
  { intros n c aft' _ Hn. apply Forall_forall. intros m Hm.
    eapply Hin; [exact Hm | cbn [length]; lia]. }
  destruct (here fl r bef aft) as [st|] eqn:E.
  - injection H as <- <-. unfold obj at 1. cbn [m_end].
    pose proof E as A. apply here_advance in A.
    destruct (length (after st) <? length aft) eqn:Elt.
    + apply Forall_forall. intros m Hm'. eapply Hin; [exact Hm'|].
      unfold pos. lia.
    + destruct aft as [|c aft']; [constructor|].
      eapply Hnext; [reflexivity|].
      apply Nat.ltb_ge in Elt.
      destruct A as [x [A1 A2]]. cbn [before after] in A1, A2.
      unfold pos. rewrite A2, length_app, length_rev.
      rewrite A1, length_app in Elt. lia.
  - destruct aft as [|c aft']; [discriminate|].
    apply (IH _ _ _ _ H).
Qed.

Lemma iter_sorted fl r : forall fuel bef aft,
  ForallOrdPairs (fun a b => m_end a <= m_end b) (iter fuel fl r bef aft).
Proof.
  induction fuel as [|f IH]; intros bef aft; [constructor|].
  pose proof (@iter_ordered fl r (S f) bef aft) as Ho.
  cbn [iter] in *.
  destruct (here fl r bef aft) as [st|].
  - constructor.
    + eapply Ho. reflexivity.
    + destruct (length (after st) <? length aft); [apply IH|].
      destruct aft; [constructor | apply IH].
  - destruct aft; [constructor | apply IH].
Qed.

Lemma classes_loop_all text : forall cs,
  Forall (fun c => search_from multiline ApexParser.namespace_pattern text (m_end c)
                   = None) cs ->
  ApexParser.classes_loop text cs = map (class_of text) cs.
Proof.
  induction cs as [|c cs IH]; intros H; [reflexivity|].
  inversion H as [|? ? Hc Hcs]; subst.
  cbn [ApexParser.classes_loop map]. rewrite Hc, (IH Hcs). reflexivity.
Qed.

Lemma classes_loop_one_or_all text cs :
  ForallOrdPairs (fun a b => m_end a <= m_end b) cs ->
  ApexParser.classes_loop text cs
  = match cs with
    | [] => []
    | c :: _ =>
        match search_from multiline ApexParser.namespace_pattern text (m_end c) with
        | Some _ => [class_of text c]
        | None => map (class_of text) cs
        end
    end.
Proof.
  intros Hs. destruct cs as [|c cs]; [reflexivity|].
  destruct (search_from multiline ApexParser.namespace_pattern text (m_end c)) eqn:E.
  - cbn [ApexParser.classes_loop]. rewrite E. reflexivity.
  - apply classes_loop_all. inversion Hs as [|? ? Hall _]; subst.
    constructor; [exact E|].
    eapply Forall_impl; [|exact Hall]. intros c' Hle.
    eapply search_from_none_later; [exact E | exact Hle].
Qed.

(** X18.  What the loop of [ApexDocParser.extract_namespaces]
    over the class headings amounts to: each namespace lists at most one
    class, or else every class heading found after it in the text, in
    order.  The loop is left after the first class that is followed by a
    namespace heading, and a class that is not followed by one is not
    followed by a later class that is. *)
Theorem namespace_lists_one_class_or_all (text : str) :
  Forall2 (fun m n =>
             length (ApexParser.namespace_classes n) <= 1
             \/ map ApexParser.class_name (ApexParser.namespace_classes n)
                = map (fun c => group text c 1)
                      (finditer_from multiline ApexParser.class_pattern text
                                     (m_end m)))
          (finditer multiline ApexParser.namespace_pattern text)
          (ApexParser.extract_namespaces text).
Proof.
  unfold ApexParser.extract_namespaces.
  induction (finditer multiline ApexParser.namespace_pattern text) as [|m ms IH];
    [constructor|].
  cbn [map]. constructor; [|exact IH].
  cbn [ApexParser.namespace_classes].
  rewrite classes_loop_one_or_all.
  - destruct (finditer_from multiline ApexParser.class_pattern text (m_end m))
      as [|c cs]; [left; simpl; lia|].
    destruct (search_from multiline ApexParser.namespace_pattern text (m_end c)).
    + left. simpl. lia.
    + right. rewrite map_map. reflexivity.
  - unfold finditer_from. destruct (m_end m <=? length text);
      [apply iter_sorted | constructor].
Qed.

(* ------------------------------------------------------------------ *)
(** *** apex_parser.py and simpleChunker.py: names *)
(* ------------------------------------------------------------------ *)

(** [(p+)] captures a non-empty run of [p]. *)
Lemma group_plus_inv fl n p st k res :
  run fl (Group n (Plus (Chr p))) st k = Some res ->
  exists c v tail,
    after st = (c :: v) ++ tail /\ forallb p (c :: v) = true
    /\ k (close_group n (pos st)
            {| before := rev (c :: v) ++ before st; after := tail;
               caps := caps st |}) = Some res.
Proof.
  rewrite run_Group. unfold Plus. rewrite run_Seq. intros H.
  apply chr_inv in H as (c & rest & E & Hc & H).
  apply (@run_passes fl p (Star true (Chr p))) in H; [|intros x Hx; exact Hx].
  destruct H as (v & tail & E' & Hv & H). cbn [after step] in E'. subst rest.
  exists c, v, tail. repeat split; [exact E | |].
  - cbn [forallb]. rewrite Hc, Hv. reflexivity.
  - cbn [before step caps] in H. cbn [rev]. rewrite <- app_assoc. exact H.
Qed.

(** A pattern without groups leaves the groups as they are. *)
Lemma run_keeps_caps fl r st res :
  reads any r -> run fl r st Some = Some res -> caps res = caps st.
Proof.
  intros Hr H. apply (@run_passes fl any _ Hr) in H as (v & tail & _ & _ & H).
  inversion H; subst. reflexivity.
Qed.

Lemma reads_any_sp_star : reads any (Star true Patterns.sp).
Proof. intros c _. reflexivity. Qed.

Lemma reads_any_sp_plus : reads any (Plus Patterns.sp).
Proof. split; intros c _; reflexivity. Qed.

Lemma here_apex_heading fl kind bef aft st :
  here fl (cat [Bol; Group 1 (Plus Patterns.wd); Plus Patterns.sp; word kind])
       bef aft = Some st ->
  exists id tail,
    aft = id ++ tail /\ identifier id = true
    /\ caps st = [(1, (length bef, length bef + length id))].
Proof.
  unfold here. cbn [cat]. intros H.
  rewrite run_Seq in H. apply bol_inv in H.
  rewrite run_Seq in H. unfold Patterns.wd in H.
  apply group_plus_inv in H as (c & v & tail & E & Hv & H).
  cbn [after] in E. cbn [before caps pos] in H.
  apply run_keeps_caps in H.
  - exists (c :: v), tail. repeat split; [exact E | exact Hv |].
    rewrite H. unfold close_group, pos. cbn [caps before].
    rewrite length_app, length_rev. repeat (f_equal; try lia).
  - split; [apply reads_any_sp_plus | apply reads_any_word].
Qed.

Lemma apex_heading_group fl kind text fuel bef aft m :
  rev bef ++ aft = text ->
  In m (iter fuel fl
          (cat [Bol; Group 1 (Plus Patterns.wd); Plus Patterns.sp; word kind])
          bef aft) ->
  identifier (group text m 1) = true.
Proof.
  intros Ht H.
  apply iter_In in H as (b & a & st & Ht' & _ & Hh & ->).
  apply here_apex_heading in Hh as (id & tail & Ea & Hid & Hc).
  unfold group, obj. cbn [m_caps]. rewrite Hc. cbn [cap_lookup Nat.eqb].
  rewrite (@slice_captured b a id tail text); auto. congruence.
Qed.

Lemma classes_loop_In text : forall cs c,
  In c (ApexParser.classes_loop text cs) ->
  exists m, In m cs /\ ApexParser.class_name c = group text m 1.
Proof.
  induction cs as [|m cs IH]; intros c H; [contradiction|].
  cbn [ApexParser.classes_loop] in H. destruct H as [<-|H].
  - exists m. split; [left; reflexivity | reflexivity].
  - destruct (search_from multiline ApexParser.namespace_pattern text (m_end m));
      [contradiction|].
    apply IH in H as (m' & Hin & E). exists m'. split; [right; exact Hin | exact E].
Qed.

(** X19.  The names [ApexDocParser] gives: every namespace name and
    every class name is a non-empty run of word characters. *)
Theorem apex_parser_names_are_identifiers (text : str) :
  Forall (fun n =>
            identifier (ApexParser.namespace_name n) = true
            /\ Forall (fun c => identifier (ApexParser.class_name c) = true)
                      (ApexParser.namespace_classes n))
         (ApexParser.extract_namespaces text).
Proof.
  unfold ApexParser.extract_namespaces. apply Forall_map, Forall_forall.
  intros m Hm. cbn [ApexParser.namespace_name ApexParser.namespace_classes].
  split.
  - unfold finditer, ApexParser.namespace_pattern, w in Hm.
    eapply apex_heading_group; [|exact Hm]. reflexivity.
  - apply Forall_forall. intros c Hc.
    apply classes_loop_In in Hc as (cm & Hin & ->).
    unfold finditer_from in Hin.
    destruct (m_end m <=? length text); [|contradiction].
    unfold ApexParser.class_pattern, w in Hin.
    eapply apex_heading_group; [|exact Hin].
    rewrite rev_involutive. apply firstn_skipn.
Qed.

Lemma signature_tail_caps fl st res :
  run fl (cat [Star true Patterns.sp; w "("; Group 4 (Star true Dot); w ")"])
      st Some = Some res ->
  exists span, caps res = (4, span) :: caps st.
Proof.
  cbn [cat]. intros H. rewrite run_Seq in H.
  apply (@run_passes fl any _ reads_any_sp_star) in H as (v1 & t1 & _ & _ & H).
  rewrite run_Seq in H. unfold w in H.
  apply (@run_passes fl any _ (reads_any_word (lit "("))) in H as (v2 & t2 & _ & _ & H).
  rewrite run_Seq, run_Group in H.
  apply (@run_passes fl any (Star true Dot)) in H; [|intros c; reflexivity].
  destruct H as (v3 & t3 & _ & _ & H).
  apply run_keeps_caps in H; [|apply reads_any_word].
  cbn [caps close_group] in H. eexists. exact H.
Qed.

Lemma here_SIGNATURE_name fl text st :
  here fl SimpleChunker.SIGNATURE [] text = Some st ->
  identifier (group text (obj 0 st) 3) = true.
Proof.
  unfold here, SimpleChunker.SIGNATURE. cbn [cat]. intros H.
  apply seq_forwards in H as (s1 & A1 & H).
  apply seq_forwards in H as (s2 & A2 & H).
  apply seq_forwards in H as (s3 & A3 & H).
  apply seq_forwards in H as (s4 & A4 & H).
  pose proof (advance_trans (advance_trans (advance_trans A1 A2) A3) A4) as A.
  apply advance_text in A. cbn [before after rev app] in A.
  rewrite run_Seq in H. unfold Patterns.wd in H.
  apply group_plus_inv in H as (c & v & tail & E & Hv & H).
  apply signature_tail_caps in H as (span & Hc).
  unfold group, obj. cbn [m_caps]. rewrite Hc.
  cbn [cap_lookup Nat.eqb caps close_group]. unfold pos. cbn [before].
  rewrite length_app, length_rev.
  replace (length (before s4) + length (c :: v))
    with (length (before s4) + length (c :: v)) by reflexivity.
  rewrite Nat.add_comm.
  rewrite (@slice_captured (before s4) (after s4) (c :: v) tail text A E).
  unfold identifier. cbn [truthy]. exact Hv.
Qed.

(** X20.  A method item of simpleChunker.py has a name that is a
    non-empty run of word characters, and a return type without leading
    or trailing whitespace. *)
Theorem method_item_name_is_identifier
    (paragraph name signature : str) (parameters : list SimpleChunker.parameter)
    (return_type : str) :
  SimpleChunker.content_item_of paragraph
  = SimpleChunker.method_item name signature parameters return_type ->
  identifier name = true /\ trimmed return_type = true.
Proof.
  unfold SimpleChunker.content_item_of.
  destruct (starts_with (lit "*") paragraph); [discriminate|].
  destruct (starts_with (lit "Signature") paragraph); [discriminate|].
  destruct (_ || _ || _); [|discriminate].
  unfold match_.
  destruct (here no_flags SimpleChunker.SIGNATURE [] paragraph) as [st|] eqn:E;
    [|discriminate].
  intros H. injection H as <- _ _ <-. split.
  - apply here_SIGNATURE_name in E. exact E.
  - apply strip_trimmed.
Qed.

Lemma method_item_name_is_identifier_witness :
  identifier (lit "getAll") = true /\ trimmed (lit "List<Account>") = true.
Proof.
  apply (@method_item_name_is_identifier
           (lit "static  List<Account>  getAll  (Id a, Integer n) {")
           (lit "getAll")
           (lit "static  List<Account>  getAll  (Id a, Integer n) {")
           [ {| SimpleChunker.param_type := lit "Id";
                SimpleChunker.param_name := lit "a" |};
             {| SimpleChunker.param_type := lit "Integer";
                SimpleChunker.param_name := lit "n" |} ]
           (lit "List<Account>")).
  vm_compute. reflexivity.
Defined.

(* ================================================================== *)
(** ** The description cleaner, token by token *)
(* ================================================================== *)

Lemma delete_all_skip token_at : forall k t,
  Spec.delete_all token_at k t = Spec.delete_all token_at 0 (skipn k t).
Proof.
  induction k as [|k IH]; intros t; [reflexivity|].
  destruct t as [|c t]; [reflexivity|]. cbn [Spec.delete_all skipn]. apply IH.
Qed.

(** [re.sub] by the empty string is the deletion of the recognised
    tokens. *)
Lemma sub_deletes r token_at :
  recognises r token_at ->
  forall fuel bef aft, length aft < fuel ->
    subst fuel no_flags r [] bef aft = Spec.delete_all token_at 0 aft.
Proof.
  intros Hr. induction fuel as [|f IH]; intros bef aft Hlen; [lia|].
  cbn [subst]. specialize (Hr bef aft).
  destruct (token_at aft) as [n|] eqn:E.
  - destruct Hr as (Hn & Hle & st & Hh & Ha). rewrite Hh.
    destruct aft as [|c aft']; [simpl in Hle; lia|].
    assert (Hshort : length (after st) < length (c :: aft')).
    { rewrite Ha, length_skipn. cbn [length] in *. lia. }
    rewrite (proj2 (Nat.ltb_lt _ _) Hshort). cbn [app].
    rewrite IH by (cbn [length] in *; lia).
    cbn [Spec.delete_all]. rewrite E.
    destruct n as [|k]; [lia|].
    rewrite Ha, (delete_all_skip token_at k aft'). reflexivity.
  - rewrite Hr. destruct aft as [|c aft']; [reflexivity|].
    cbn [Spec.delete_all]. rewrite E.
    rewrite IH by (simpl in Hlen; lia). reflexivity.
Qed.

Lemma starts_with_split p : forall t,
  starts_with p t = true -> t = p ++ skipn (length p) t.
Proof.
  induction p as [|a p IH]; intros t H; [reflexivity|].
  destruct t as [|c t]; [discriminate|]. cbn [starts_with] in H.
  apply andb_true_iff in H as [H1 H2]. apply Ascii.eqb_eq in H1. subst c.
  cbn [length skipn app]. f_equal. apply IH, H2.
Qed.

Lemma starts_with_length p : forall t,
  starts_with p t = true -> length p <= length t.
Proof.
  intros t H. apply starts_with_split in H. rewrite H, length_app. lia.
Qed.

Lemma here_word fl s bef aft :
  here fl (word s) bef aft =
  if starts_with s aft
  then Some {| before := rev s ++ bef; after := skipn (length s) aft; caps := [] |}
  else None.
Proof.
  unfold here. destruct (starts_with s aft) eqn:E.
  - pose proof E as S. apply starts_with_split in S. rewrite S at 1. apply run_word_ok.
  - apply run_word_none. exact E.
Qed.

Lemma recognises_LABELS : recognises Patterns.LABELS Spec.label_at.
Proof.
  intros bef aft. unfold Spec.label_at, Patterns.LABELS. cbn [alt]. unfold w.
  change (here no_flags (Alt (word (lit "IN THIS SECTION:")) (word (lit "SEE ALSO:")))
            bef aft)
    with (match here no_flags (word Spec.IN_THIS_SECTION) bef aft with
          | Some res => Some res
          | None => here no_flags (word Spec.SEE_ALSO) bef aft
          end).
  rewrite !here_word.
  destruct (starts_with Spec.IN_THIS_SECTION aft) eqn:E1.
  - split; [simpl; lia|]. split; [apply starts_with_length, E1|].
    eexists. split; reflexivity.
  - destruct (starts_with Spec.SEE_ALSO aft) eqn:E2; [|reflexivity].
    split; [simpl; lia|]. split; [apply starts_with_length, E2|].
    eexists. split; reflexivity.
Qed.

Lemma count_digits_split : forall t,
  exists ds, t = ds ++ skipn (Spec.count_digits t) t
             /\ length ds = Spec.count_digits t
             /\ Forall (fun c => is_digit c = true) ds
             /\ match skipn (Spec.count_digits t) t with
                | c :: _ => is_digit c = false
                | [] => True
                end.
Proof.
  induction t as [|c t IH]; [exists []; repeat split; constructor|].
  cbn [Spec.count_digits]. destruct (is_digit c) eqn:E.
  - destruct IH as (ds & Ht & Hl & Hd & Hn). exists (c :: ds).
    cbn [skipn app length]. repeat split; auto. f_equal. exact Ht.
  - exists []. cbn [skipn app length]. repeat split; auto.
Qed.

Lemma count_digits_run : forall ds tail,
  Forall (fun c => is_digit c = true) ds ->
  match tail with c :: _ => is_digit c = false | [] => True end ->
  Spec.count_digits (ds ++ tail) = length ds.
Proof.
  induction ds as [|d ds IH]; intros tail Hd Ht.
  - destruct tail as [|c tail]; [reflexivity|]. simpl. rewrite Ht. reflexivity.
  - inversion Hd as [|? ? H1 H2]; subst. simpl. rewrite H1.
    f_equal. apply IH; assumption.
Qed.

(** An opening page marker ahead is read, whatever precedes. *)
Lemma here_PAGE_OPEN_ok bef ds tail :
  ds <> [] -> Forall (fun c => is_digit c = true) ds ->
  here no_flags Patterns.PAGE_OPEN bef (lit "[PAGE_" ++ ds ++ "]"%char :: tail)
  = Some {| before := "]"%char :: rev ds ++ rev (lit "[PAGE_") ++ bef;
            after := tail; caps := [] |}.
Proof.
  intros Hn Hd. destruct ds as [|d ds]; [congruence|].
  inversion Hd as [|? ? Hd1 Hds]; subst.
  unfold here, Patterns.PAGE_OPEN. cbn [cat]. unfold w.
  cbn [run]. rewrite run_word_ok.
  unfold Plus, Patterns.dg. cbn [run after app]. rewrite Hd1.
  unfold step. cbn [before after caps].
  change (lit "]") with ["]"%char].
  rewrite (@star_chr_all no_flags is_digit _ ("]"%char :: tail) [] ds).
  - unfold word, ch. cbn [run after]. rewrite Ascii.eqb_refl.
    unfold step. cbn [before caps rev]. rewrite <- app_assoc. reflexivity.
  - exact Hds.
  - reflexivity.
  - cbn [after]. lia.
  - unfold word, ch. cbn [run after]. rewrite Ascii.eqb_refl. discriminate.
Qed.

(** What the pattern of the opening page marker reads, when it matches. *)
Lemma here_PAGE_OPEN_inv bef aft st :
  here no_flags Patterns.PAGE_OPEN bef aft = Some st ->
  exists ds tail,
    aft = lit "[PAGE_" ++ ds ++ "]"%char :: tail
    /\ ds <> [] /\ Forall (fun c => is_digit c = true) ds.
Proof.
  unfold here, Patterns.PAGE_OPEN. cbn [cat]. unfold w. intros H.
  rewrite run_Seq in H. pose proof H as Hs.
  apply run_word_starts in Hs. cbn [after] in Hs.
  apply starts_with_split in Hs.
  set (rest := skipn (length (lit "[PAGE_")) aft) in *.
  rewrite Hs in H. rewrite run_word_ok in H.
  rewrite run_Seq in H. unfold Plus, Patterns.dg in H. rewrite run_Seq in H.
  apply chr_inv in H as (d & rest' & E & Hd & H). cbn [after] in E.
  apply (@run_passes no_flags is_digit (Star true (Chr is_digit))) in H;
    [|intros c Hc; exact Hc].
  destruct H as (v & tail & E' & Hv & H). cbn [after step] in E'.
  change (lit "]") with ["]"%char] in H. unfold word, ch in H.
  apply chr_inv in H as (c & tail' & Et & Hc & _). cbn [after] in Et.
  apply Ascii.eqb_eq in Hc. subst c.
  exists (d :: v), tail'. split; [|split; [discriminate|]].
  - rewrite Hs. f_equal. rewrite E, E', Et. reflexivity.
  - constructor; [exact Hd|]. apply Forall_forall. intros x Hx.
    rewrite forallb_forall in Hv. apply Hv, Hx.
Qed.

Lemma open_marker_at_shape ds tail :
  ds <> [] -> Forall (fun c => is_digit c = true) ds ->
  Spec.open_marker_at (lit "[PAGE_" ++ ds ++ "]"%char :: tail)
  = Some (6 + length ds + 1).
Proof.
  intros Hn Hd. unfold Spec.open_marker_at.
  replace (starts_with (lit "[PAGE_") (lit "[PAGE_" ++ ds ++ "]"%char :: tail))
    with true by reflexivity.
  change (skipn 6 (lit "[PAGE_" ++ ds ++ "]"%char :: tail))
    with (ds ++ "]"%char :: tail).
  rewrite count_digits_run by (auto; reflexivity).
  replace (skipn (6 + length ds) (lit "[PAGE_" ++ ds ++ "]"%char :: tail))
    with ("]"%char :: tail).
  - destruct ds; [congruence|]. reflexivity.
  - change (skipn (6 + length ds) (lit "[PAGE_" ++ ds ++ "]"%char :: tail))
      with (skipn (length ds) (ds ++ "]"%char :: tail)).
    rewrite skipn_app, Nat.sub_diag, skipn_all. reflexivity.
Qed.

Lemma open_marker_at_inv t n :
  Spec.open_marker_at t = Some n ->
  exists ds tail,
    t = lit "[PAGE_" ++ ds ++ "]"%char :: tail
    /\ ds <> [] /\ Forall (fun c => is_digit c = true) ds
    /\ n = 6 + length ds + 1.
Proof.
  unfold Spec.open_marker_at.
  destruct (starts_with (lit "[PAGE_") t) eqn:E; [|discriminate].
  apply starts_with_split in E. change (length (lit "[PAGE_")) with 6 in E.
  destruct (count_digits_split (skipn 6 t)) as (ds & Ht & Hl & Hd & _).
  destruct (0 <? Spec.count_digits (skipn 6 t)) eqn:Hpos; [|discriminate].
  apply Nat.ltb_lt in Hpos.
  destruct (starts_with (lit "]") (skipn (6 + Spec.count_digits (skipn 6 t)) t))
    eqn:Hb; [|discriminate].
  cbn [andb]. intros H. inversion H; subst n. clear H.
  assert (Hb' : starts_with (lit "]")
                  (skipn (Spec.count_digits (skipn 6 t)) (skipn 6 t)) = true).
  { rewrite skipn_skipn, Nat.add_comm. exact Hb. }
  apply starts_with_split in Hb'. change (length (lit "]")) with 1 in Hb'.
  exists ds, (skipn 1 (skipn (Spec.count_digits (skipn 6 t)) (skipn 6 t))).
  repeat split.
  - rewrite E at 1. f_equal. rewrite Ht at 1. f_equal. exact Hb'.
  - intros ->. cbn [length] in Hl. lia.
  - exact Hd.
  - rewrite Hl. reflexivity.
Qed.

Lemma recognises_PAGE_OPEN :
  recognises Patterns.PAGE_OPEN Spec.open_marker_at.
Proof.
  intros bef aft. destruct (Spec.open_marker_at aft) as [n|] eqn:E.
  - apply open_marker_at_inv in E as (ds & tail & -> & Hn & Hd & ->).
    split; [lia|]. split.
    + rewrite length_app. cbn [length]. rewrite length_app. cbn [length].
      change (length (lit "[PAGE_")) with 6. lia.
    + eexists. split; [apply here_PAGE_OPEN_ok; assumption|].
      cbn [after].
      change (skipn (6 + length ds + 1) (lit "[PAGE_" ++ ds ++ "]"%char :: tail))
        with (skipn (length ds + 1) (ds ++ "]"%char :: tail)).
      rewrite skipn_app.
      replace (length ds + 1 - length ds) with 1 by lia.
      rewrite skipn_all2 by lia. reflexivity.
  - destruct (here no_flags Patterns.PAGE_OPEN bef aft) as [st|] eqn:H;
      [|reflexivity].
    apply here_PAGE_OPEN_inv in H as (ds & tail & -> & Hn & Hd).
    rewrite open_marker_at_shape in E by assumption. discriminate.
Qed.

(** [re.sub(r'\s+', ' ', t)] is the squeeze of [t]. *)
Lemma squeeze_run : forall aft bef,
  Spec.squeeze true aft
  = Spec.squeeze false (snd (eat is_space bef aft)).
Proof.
  induction aft as [|c aft IH]; intros bef; [reflexivity|].
  cbn [eat Spec.squeeze]. destruct (is_space c) eqn:E.
  - apply IH.
  - cbn [snd Spec.squeeze]. rewrite E. reflexivity.
Qed.

Lemma sub_spaces_squeeze : forall fuel bef aft,
  length aft < fuel ->
  subst fuel no_flags Patterns.SPACES [" "%char] bef aft
  = Spec.squeeze false aft.
Proof.
  induction fuel as [|f IH]; intros bef aft Hlen; [lia|].
  cbn [subst]. rewrite here_SPACES.
  destruct aft as [|c rest]; [reflexivity|].
  simpl in Hlen. cbn [Spec.squeeze].
  destruct (is_space c) eqn:Hc.
  - cbn [after before].
    pose proof (eat_length is_space rest (c :: bef)) as Hle.
    replace (length (snd (eat is_space (c :: bef) rest)) <? length (c :: rest))
      with true by (symmetry; apply Nat.ltb_lt; simpl; lia).
    rewrite IH by lia. cbn [app]. f_equal. symmetry. apply squeeze_run.
  - rewrite IH by lia. reflexivity.
Qed.

Lemma delete_all_length token_at : forall t k,
  length (Spec.delete_all token_at k t) <= length t.
Proof.
  induction t as [|c t IH]; intros k; [simpl; lia|].
  cbn [Spec.delete_all]. destruct k as [|k].
  - destruct (token_at (c :: t)) as [[|n]|]; cbn [length];
      try (specialize (IH 0); lia). specialize (IH n). lia.
  - cbn [length]. specialize (IH k). lia.
Qed.

(** The three substitutions of the cleaner are two deletions and the
    squeeze. *)
Lemma clean_description_cuts x :
  Patterns.clean_description x
  = strip (Spec.squeeze false
             (Spec.delete_all Spec.open_marker_at 0 (Spec.without_labels x))).
Proof.
  unfold Patterns.clean_description, Spec.without_labels, sub.
  rewrite (sub_deletes recognises_LABELS) by lia.
  rewrite (sub_deletes recognises_PAGE_OPEN) by lia.
  change (lit " ") with [" "%char].
  rewrite sub_spaces_squeeze by lia. reflexivity.
Qed.

(** Where no closing page marker stands, cutting out the page markers is
    cutting out the opening ones. *)
Lemma delete_page_markers_open : forall t k,
  contains (lit "[/PAGE_") t = false ->
  Spec.delete_all Spec.page_marker_at k t
  = Spec.delete_all Spec.open_marker_at k t.
Proof.
  induction t as [|c t IH]; intros k H; [reflexivity|].
  rewrite contains_cons in H. apply orb_false_iff in H as [H1 H2].
  cbn [Spec.delete_all]. destruct k as [|k]; [|apply IH, H2].
  unfold Spec.page_marker_at at 1. unfold Spec.close_marker_at. rewrite H1.
  destruct (Spec.open_marker_at (c :: t)) as [[|n]|]; rewrite IH by exact H2;
    reflexivity.
Qed.

(** C6, amended.  For every input the cleaned description has no two
    whitespace characters side by side and neither begins nor ends with
    one.  Where the input, once its labels are cut out, holds no closing
    page marker, the cleaned description is the input with every
    occurrence of [IN THIS SECTION:] and [SEE ALSO:] cut out, then every
    page marker, in one pass from left to right each, with every run of
    whitespace turned into one blank and the ends trimmed.  [Usage] and
    [Example] are not among the labels. *)
Theorem cleaned_text_is_cut_squeezed_and_trimmed (x : str) :
  (double_space (Patterns.clean_description x) = false
   /\ starts_space (Patterns.clean_description x) = false
   /\ ends_space (Patterns.clean_description x) = false)
  /\ (contains (lit "[/PAGE_") (Spec.without_labels x) = false ->
      Patterns.clean_description x = Spec.clean x).
Proof.
  destruct (clean_shape x) as (Hn & Hs & He).
  split.
  - split; [apply normal_no_double, Hn | split; assumption].
  - intros H. rewrite clean_description_cuts. unfold Spec.clean.
    rewrite (delete_page_markers_open _ 0 H). reflexivity.
Qed.

(** The amended C6 on a text with a label, an opening page marker and
    [Usage]: the label and the marker go, [Usage] stays. *)
Lemma cleaned_text_is_cut_squeezed_and_trimmed_witness :
  Patterns.clean_description (lit "  The  Usage\nSEE ALSO: [PAGE_7] notes ")
  = lit "The Usage notes".
Proof.
  rewrite (proj2 (@cleaned_text_is_cut_squeezed_and_trimmed
                    (lit "  The  Usage\nSEE ALSO: [PAGE_7] notes ")));
    reflexivity.
Defined.
